(** * The Sparkify ETL pipeline ([etl.py]) as a shallow embedding

    The three functions of [etl.py] -- [process_song_file],
    [process_log_file] and [process_data] -- are written here as programs of
    a small state-and-exception monad over a database connection.  What
    pandas returns for a file (a [DataFrame]) is the input of the two
    handlers; what psycopg2 does with a statement is given by a model of the
    relational store. *)

From Stdlib Require Import List String Ascii ZArith Bool Arith Lia.
From Stdlib Require Import Floats.SpecFloat.
From Stdlib Require Import DecimalString.
Import ListNotations.

Local Open Scope string_scope.
Local Open Scope Z_scope.
Local Open Scope list_scope.

(* ================================================================= *)
(** ** Cell values *)

(** A cell of a [DataFrame], a parameter of a statement, a field of a stored
    row.  [VNull] is Python's [None] / pandas' [NaN] and [NaT] / SQL [NULL].
    Floats are binary64 values; a timestamp is counted in milliseconds since
    1970-01-01 00:00:00 UTC.  (JSON booleans and nested values do not occur
    in the two datasets and have no constructor.) *)
Inductive value : Type :=
| VNull
| VStr (s : string)
| VInt (n : Z)
| VFloat (f : spec_float)
| VTimestamp (ms : Z).

Definition is_null (v : value) : bool :=
  match v with VNull => true | _ => false end.

(** The exceptions a run can end with.  pandas reports a file that is not
    line-delimited JSON with a [ValueError]; it is called [ParseError] here,
    as in the specification's taxonomy. *)
Inductive exn : Type :=
| ParseError
| FileNotFoundError
| IsADirectoryError
| PermissionError
| KeyError (label : string)
| AttributeError (label : string)
| IndexError
| ValueError
| OutOfBoundsDatetime
| ProgrammingError
| PersistenceError.

Inductive result (A : Type) : Type :=
| Ok (a : A)
| Raise (e : exn).
Arguments Ok {A} a.
Arguments Raise {A} e.

(* ================================================================= *)
(** ** DataFrames *)

(** A frame is row-major: the column labels, and one list of cells per row,
    in file order.  A cell beyond the end of a short row reads as [VNull]
    (a field missing from an event surfaces as a null). *)
Record DataFrame : Type := mkDataFrame {
  columns : list string;
  rows : list (list value)
}.

Fixpoint column_index (c : string) (cols : list string) : option nat :=
  match cols with
  | [] => None
  | c' :: cols' =>
      if String.eqb c c' then Some O
      else option_map S (column_index c cols')
  end.

Definition cell (i : nat) (r : list value) : value := nth i r VNull.

(** [field cols r c]: the value of column [c] in the row [r] of a frame
    whose labels are [cols]. *)
Definition field (cols : list string) (r : list value) (c : string) : value :=
  match column_index c cols with
  | Some i => cell i r
  | None => VNull
  end.

(** [df[c]]: the Series of one column. *)
Definition getitem (df : DataFrame) (c : string) : result (list value) :=
  match column_index c (columns df) with
  | Some i => Ok (map (cell i) (rows df))
  | None => Raise (KeyError c)
  end.

(** The positions of the labels [cs], or the first label that is missing. *)
Fixpoint column_indices (cs cols : list string) : result (list nat) :=
  match cs with
  | [] => Ok []
  | c :: cs' =>
      match column_index c cols with
      | None => Raise (KeyError c)
      | Some i =>
          match column_indices cs' cols with
          | Ok ixs => Ok (i :: ixs)
          | Raise e => Raise e
          end
      end
  end.

(** [df[[c1, ..., cn]]]: the sub-frame of the listed columns. *)
Definition getitem_list (df : DataFrame) (cs : list string) : result DataFrame :=
  match column_indices cs (columns df) with
  | Ok ixs => Ok (mkDataFrame cs (map (fun r => map (fun i => cell i r) ixs) (rows df)))
  | Raise e => Raise e
  end.

(** [df[mask]]: the rows whose entry in the boolean Series is true. *)
Definition getitem_mask (df : DataFrame) (mask : list bool) : DataFrame :=
  mkDataFrame (columns df)
    (map fst (filter snd (combine (rows df) mask))).

Fixpoint set_cell (i : nat) (v : value) (r : list value) : list value :=
  match i, r with
  | O, [] => [v]
  | O, _ :: r' => v :: r'
  | S i', [] => VNull :: set_cell i' v []
  | S i', x :: r' => x :: set_cell i' v r'
  end.

(** [df[c] = series]: the column [c] is overwritten, or added as the last
    column when the frame has none of that label. *)
Definition setitem (df : DataFrame) (c : string) (series : list value) : DataFrame :=
  match column_index c (columns df) with
  | Some i =>
      mkDataFrame (columns df)
        (map (fun rv => set_cell i (snd rv) (fst rv)) (combine (rows df) series))
  | None =>
      mkDataFrame (columns df ++ [c])
        (map (fun rv => set_cell (List.length (columns df)) (snd rv) (fst rv))
             (combine (rows df) series))
  end.

(** [pd.DataFrame(dict(zip(labels, series)))]: a frame from its columns. *)
Definition frame_of_columns (labels : list string) (series : list (list value)) : DataFrame :=
  mkDataFrame labels
    (map (fun i => map (fun s => nth i s VNull) series)
         (seq 0 (List.length (hd [] series)))).

(** [df.values[0]]. *)
Definition values0 (df : DataFrame) : result (list value) :=
  match rows df with
  | r :: _ => Ok r
  | [] => Raise IndexError
  end.

(** [row.c] for a row handed out by [df.iterrows()]. *)
Definition getattr (cols : list string) (r : list value) (c : string) : result value :=
  match column_index c cols with
  | Some i => Ok (cell i r)
  | None => Raise (AttributeError c)
  end.

(** [series == 'NextSong'], cell by cell. *)
Definition eq_str (s : string) (v : value) : bool :=
  match v with
  | VStr s' => String.eqb s' s
  | _ => false
  end.

(* ================================================================= *)
(** ** Timestamps: [pd.to_datetime(..., unit='ms')] and the [.dt] fields *)

Module Calendar.

Definition ms_per_hour : Z := 3600000.
Definition ms_per_day : Z := 86400000.

(** Whole days since 1970-01-01, rounded down (so also right before 1970). *)
Definition days_of_ms (ms : Z) : Z := ms / ms_per_day.

(** The proleptic Gregorian date of a day count, by 400-year eras that
    start on a 1 March. *)
Definition civil_of_days (days : Z) : Z * Z * Z :=
  let z := days + 719468 in
  let era := z / 146097 in
  let doe := z - era * 146097 in
  let yoe := (doe - doe / 1460 + doe / 36524 - doe / 146096) / 365 in
  let doy := doe - (365 * yoe + yoe / 4 - yoe / 100) in
  let mp := (5 * doy + 2) / 153 in
  let d := doy - (153 * mp + 2) / 5 + 1 in
  let m := if mp <? 10 then mp + 3 else mp - 9 in
  let y := yoe + era * 400 + (if m <=? 2 then 1 else 0) in
  (y, m, d).

(** The day count of a date: the inverse direction. *)
Definition days_of_civil (y m d : Z) : Z :=
  let y' := if m <=? 2 then y - 1 else y in
  let era := y' / 400 in
  let yoe := y' - era * 400 in
  let mp := if 2 <? m then m - 3 else m + 9 in
  let doy := (153 * mp + 2) / 5 + d - 1 in
  let doe := yoe * 365 + yoe / 4 - yoe / 100 + doy in
  era * 146097 + doe - 719468.

Definition year (ms : Z) : Z := fst (fst (civil_of_days (days_of_ms ms))).
Definition month (ms : Z) : Z := snd (fst (civil_of_days (days_of_ms ms))).
Definition day (ms : Z) : Z := snd (civil_of_days (days_of_ms ms)).
Definition hour (ms : Z) : Z := (ms mod ms_per_day) / ms_per_hour.

(** pandas' convention: Monday is 0 and Sunday is 6.  Day 0 was a
    Thursday. *)
Definition weekday (ms : Z) : Z := (days_of_ms ms + 3) mod 7.

(** ISO 8601: a week runs from Monday to Sunday and belongs to the year of
    its Thursday; weeks are numbered from 1 within that year. *)
Definition week (ms : Z) : Z :=
  let days := days_of_ms ms in
  let thursday := days - weekday ms + 3 in
  let y := fst (fst (civil_of_days thursday)) in
  (thursday - days_of_civil y 1 1) / 7 + 1.

End Calendar.

(** The largest and smallest nanosecond counts of a pandas [Timestamp]. *)
Definition max_timestamp_ns : Z := 9223372036854775807.
Definition min_timestamp_ns : Z := - 9223372036854775807.

(** [pd.to_datetime(v, unit='ms')] on one cell of an integer column, which
    is what the activity logs carry as [ts]: milliseconds that fit a
    [Timestamp] convert, others are out of bounds.  A missing value stays
    missing ([NaT]).  The definition stands for pandas on the cells of a
    column of 64-bit integers (see [int64_cell]) and on missing values; a
    column of larger integers, of floats or of strings is converted by
    pandas in ways that are not modelled, and the [ValueError] and the
    bounds given for such cells here say nothing about it. *)
Definition to_datetime_ms (v : value) : result value :=
  match v with
  | VNull => Ok VNull
  | VInt n =>
      if (min_timestamp_ns <=? n * 1000000) && (n * 1000000 <=? max_timestamp_ns)
      then Ok (VTimestamp n)
      else Raise OutOfBoundsDatetime
  | VTimestamp ms => Ok (VTimestamp ms)
  | VStr _ | VFloat _ => Raise ValueError
  end.

(** The conversion of a whole Series: it fails as a whole. *)
Fixpoint to_datetime (series : list value) : result (list value) :=
  match series with
  | [] => Ok []
  | v :: series' =>
      match to_datetime_ms v with
      | Raise e => Raise e
      | Ok t =>
          match to_datetime series' with
          | Raise e => Raise e
          | Ok ts => Ok (t :: ts)
          end
      end
  end.

(** [series.dt.<field>]: the field of every timestamp, missing for [NaT]. *)
Definition dt_cell (fld : Z -> Z) (v : value) : value :=
  match v with
  | VTimestamp ms => VInt (fld ms)
  | _ => VNull
  end.

Definition dt (fld : Z -> Z) (series : list value) : list value :=
  map (dt_cell fld) series.

(* ================================================================= *)
(** ** The relational store *)

(** The names [etl.py] imports from [sql_queries]: five inserts and the
    catalog lookup. *)
Inductive query : Type :=
| song_table_insert
| artist_table_insert
| time_table_insert
| user_table_insert
| songplay_table_insert
| song_select.

(** SQL's [=] on two values, read as a condition: a comparison with [NULL]
    selects nothing, numbers compare by value, floats as floats. *)
Definition float_eq_int (f : spec_float) (n : Z) : bool :=
  match f with
  | S754_zero _ => n =? 0
  | S754_finite s m e =>
      let sm := if s then Z.neg m else Z.pos m in
      if 0 <=? e then n =? sm * 2 ^ e else n * 2 ^ (- e) =? sm
  | S754_infinity _ | S754_nan => false
  end.

Definition sql_eqb (a b : value) : bool :=
  match a, b with
  | VStr s, VStr t => String.eqb s t
  | VInt m, VInt n => m =? n
  | VFloat f, VFloat g => SFeqb f g
  | VFloat f, VInt n | VInt n, VFloat f => float_eq_int f n
  | VTimestamp m, VTimestamp n => m =? n
  | _, _ => false
  end.

(** The five entities of the star schema; the field order is the parameter
    order of the insert in [etl.py]. *)
Record Song : Type := mkSong {
  song_id : value;
  song_title : value;
  song_artist_id : value;
  song_year : value;
  song_duration : value
}.

Record Artist : Type := mkArtist {
  artist_id : value;
  artist_name : value;
  artist_location : value;
  artist_latitude : value;
  artist_longitude : value
}.

Record User : Type := mkUser {
  user_id : value;
  user_first_name : value;
  user_last_name : value;
  user_gender : value;
  user_level : value
}.

Record TimeRow : Type := mkTimeRow {
  start_time : value;
  time_hour : value;
  time_day : value;
  time_week : value;
  time_month : value;
  time_year : value;
  time_weekday : value
}.

Record Songplay : Type := mkSongplay {
  songplay_id : nat;
  sp_start_time : value;
  sp_user_id : value;
  sp_level : value;
  sp_song_id : value;
  sp_artist_id : value;
  sp_session_id : value;
  sp_location : value;
  sp_user_agent : value
}.

Record Store : Type := mkStore {
  songs : list Song;
  artists : list Artist;
  users : list User;
  times : list TimeRow;
  songplays : list Songplay
}.

Definition empty_store : Store := mkStore [] [] [] [] [].

(** Modelled from the spec: the upsert of [sql_queries.py] (the SQL text is
    not among the sources).  A row whose key is already in the table
    overwrites that row in place, any other row is added at the end. *)
Fixpoint upsert {A : Type} (key : A -> value) (r : A) (t : list A) : list A :=
  match t with
  | [] => [r]
  | x :: t' =>
      if sql_eqb (key x) (key r) then r :: t' else x :: upsert key r t'
  end.

(** Modelled from the spec: the catalog lookup [song_select] of
    [sql_queries.py].  Songs are joined with their owning artists; the rows
    whose title, artist name and duration equal the three parameters are
    kept, in the store's order. *)
Definition joined_catalog (st : Store) : list (Song * Artist) :=
  flat_map
    (fun s =>
       map (pair s)
         (filter (fun a => sql_eqb (song_artist_id s) (artist_id a)) (artists st)))
    (songs st).

Definition catalog_matches (st : Store) (title name duration : value)
  : list (Song * Artist) :=
  filter
    (fun sa =>
       sql_eqb (song_title (fst sa)) title
       && sql_eqb (artist_name (snd sa)) name
       && sql_eqb (song_duration (fst sa)) duration)
    (joined_catalog st).

Definition select_song (st : Store) (title name duration : value)
  : list (value * value) :=
  map (fun sa => (song_id (fst sa), artist_id (snd sa)))
    (catalog_matches st title name duration).

(** Modelled from the spec: what the store does with each statement of
    [sql_queries.py].  The four dimension inserts are upserts on the
    identifier (the timestamp, for the time table); an identifier is a key,
    so a row without one is refused.  A songplay is appended under the next
    identifier.  The result is the new store and the rows the statement
    returns, if it returns rows. *)
Definition execute_on (q : query) (params : list value) (st : Store)
  : result (Store * option (list (value * value))) :=
  match q, params with
  | song_table_insert, [i; t; a; y; d] =>
      if is_null i then Raise PersistenceError
      else Ok (mkStore (upsert song_id (mkSong i t a y d) (songs st))
                 (artists st) (users st) (times st) (songplays st), None)
  | artist_table_insert, [i; n; l; la; lo] =>
      if is_null i then Raise PersistenceError
      else Ok (mkStore (songs st)
                 (upsert artist_id (mkArtist i n l la lo) (artists st))
                 (users st) (times st) (songplays st), None)
  | user_table_insert, [i; f; l; g; lv] =>
      if is_null i then Raise PersistenceError
      else Ok (mkStore (songs st) (artists st)
                 (upsert user_id (mkUser i f l g lv) (users st))
                 (times st) (songplays st), None)
  | time_table_insert, [t; h; d; w; m; y; wd] =>
      if is_null t then Raise PersistenceError
      else Ok (mkStore (songs st) (artists st) (users st)
                 (upsert start_time (mkTimeRow t h d w m y wd) (times st))
                 (songplays st), None)
  | songplay_table_insert, [t; u; lv; s; a; se; l; ua] =>
      Ok (mkStore (songs st) (artists st) (users st) (times st)
            (songplays st
               ++ [mkSongplay (S (List.length (songplays st))) t u lv s a se l ua]),
          None)
  | song_select, [t; n; d] => Ok (st, Some (select_song st t n d))
  | _, _ => Raise ProgrammingError
  end.

(* ================================================================= *)
(** ** The connection, and the monad of the pipeline *)

(** A psycopg2 connection with its one cursor: the committed store, the
    store as the open transaction sees it, and the rows of the last
    statement that are still to be fetched. *)
Record Conn : Type := mkConn {
  durable : Store;
  working : Store;
  fetched : option (list (value * value))
}.

Definition connect (st : Store) : Conn := mkConn st st None.

(** What a run does that can be observed from outside, in order. *)
Inductive event : Type :=
| EExecute (q : query) (params : list value)
| ECommit
| EPrint (line : string).

(** A computation runs on a connection and ends with a value or an
    exception, the connection as it left it, and the events it caused. *)
Definition M (A : Type) : Type := Conn -> result A * Conn * list event.

Definition ret {A : Type} (a : A) : M A := fun c => (Ok a, c, []).

Definition bind {A B : Type} (m : M A) (k : A -> M B) : M B :=
  fun c =>
    let '(r, c1, ev1) := m c in
    match r with
    | Ok a => let '(r2, c2, ev2) := k a c1 in (r2, c2, ev1 ++ ev2)
    | Raise e => (Raise e, c1, ev1)
    end.

Definition lift {A : Type} (r : result A) : M A := fun c => (r, c, []).

Declare Scope etl_scope.
Delimit Scope etl_scope with etl.
Notation "x <- m ;; k" := (bind m (fun x => k))
  (at level 61, m at next level, right associativity) : etl_scope.
Notation "m ;; k" := (bind m (fun _ => k))
  (at level 61, right associativity) : etl_scope.
Local Open Scope etl_scope.

(** [for x in l: body(x)]. *)
Fixpoint for_each {A : Type} (l : list A) (body : A -> M unit) : M unit :=
  match l with
  | [] => ret tt
  | x :: l' => body x ;; for_each l' body
  end.

(** [cur.execute(q, params)].  The event records the call, also when the
    store refuses the statement. *)
Definition cur_execute (q : query) (params : list value) : M unit :=
  fun c =>
    match execute_on q params (working c) with
    | Ok (st, rs) => (Ok tt, mkConn (durable c) st rs, [EExecute q params])
    | Raise e => (Raise e, c, [EExecute q params])
    end.

(** [cur.fetchone()]: the next row of the result, [None] when there is none
    left. *)
Definition cur_fetchone : M (option (value * value)) :=
  fun c =>
    match fetched c with
    | None => (Raise ProgrammingError, c, [])
    | Some [] => (Ok None, c, [])
    | Some (r :: rs) => (Ok (Some r), mkConn (durable c) (working c) (Some rs), [])
    end.

(** [conn.commit()]. *)
Definition conn_commit : M unit :=
  fun c => (Ok tt, mkConn (working c) (working c) (fetched c), [ECommit]).

Definition print (line : string) : M unit :=
  fun c => (Ok tt, c, [EPrint line]).

(* ================================================================= *)
(** ** Files *)

(** A file holds what [pd.read_json(path, lines=True)] makes of it: a frame,
    or nothing when its text is not line-delimited JSON.  A directory lists
    its entries in the order the operating system hands them out; a
    directory that may not be read is [Unreadable]: it can be neither listed
    nor entered.  (There are no symbolic links.) *)
#[warnings="-register-all"]
Inductive node : Type :=
| File (content : option DataFrame)
| Dir (entries : list (string * node))
| Unreadable.

(** A path is the list of its components, as its text has them between
    slashes: ['data/song_data'] is [Rel ["data"; "song_data"]], ['/tmp'] is
    [Abs ["tmp"]], ['data/'] is [Rel ["data"; ""]], and [Rel []] is the empty
    string.  A relative path does not start with an empty component: its
    text would start with a slash. *)
Inductive path : Type :=
| Abs (components : list string)
| Rel (components : list string).

(** The tree below [/], and the components of the working directory. *)
Record FileSystem : Type := mkFileSystem {
  fs_root : node;
  fs_cwd : list string
}.

Fixpoint find_entry (name : string) (entries : list (string * node)) : option node :=
  match entries with
  | [] => None
  | (n, x) :: entries' =>
      if String.eqb name n then Some x else find_entry name entries'
  end.

(** The components that name no entry: the empty one (of a doubled or a
    trailing slash) and [.] stay in the directory, [..] leaves it. *)
Definition stays (name : string) : bool :=
  String.eqb name "" || String.eqb name ".".

Definition leaves (name : string) : bool := String.eqb name "..".

(** Path resolution as the operating system does it, from a directory [n]
    whose ancestors are [parents], nearest first: every component but the
    last must lead to a directory that can be entered, and [..] at the top
    stays at the top.  The result is the node with its ancestors. *)
Fixpoint resolve_from (parents : list node) (n : node) (components : list string)
  : option (list node * node) :=
  match components with
  | [] => Some (parents, n)
  | name :: components' =>
      match n with
      | Dir entries =>
          if stays name then resolve_from parents n components'
          else if leaves name then
            match parents with
            | [] => resolve_from [] n components'
            | parent :: parents' => resolve_from parents' parent components'
            end
          else
            match find_entry name entries with
            | Some x => resolve_from (n :: parents) x components'
            | None => None
            end
      | File _ | Unreadable => None
      end
  end.

Definition resolve (n : node) (components : list string) : option node :=
  option_map snd (resolve_from [] n components).

(** The node reached from [n] by going down through the entries named. *)
Fixpoint descend (n : node) (names : list string) : option node :=
  match names with
  | [] => Some n
  | name :: names' =>
      match n with
      | Dir entries =>
          match find_entry name entries with
          | Some x => descend x names'
          | None => None
          end
      | File _ | Unreadable => None
      end
  end.

(** The components of a path counted from [/]. *)
Definition absolute (fs : FileSystem) (p : path) : list string :=
  match p with
  | Abs cs => cs
  | Rel cs => fs_cwd fs ++ cs
  end.

(** [os.path.normpath] on the components of an absolute path: empty
    components and [.] are dropped, [..] takes the component before it away
    (and is dropped at the top).  This is done on the text of the path, the
    file system is not asked. *)
Definition normalize_step (kept : list string) (name : string) : list string :=
  if stays name then kept
  else if leaves name then tl kept
  else name :: kept.

Definition normalize (components : list string) : list string :=
  rev (fold_left normalize_step components []).

(** [os.path.abspath] and [os.path.join] (with one more component). *)
Definition abspath (fs : FileSystem) (p : path) : path :=
  Abs (normalize (absolute fs p)).

Definition join (p : path) (name : string) : path :=
  match p with
  | Abs cs => Abs (cs ++ [name])
  | Rel cs => Rel (cs ++ [name])
  end.

(** What a path leads to, if anything.  The empty path leads nowhere. *)
Definition locate (fs : FileSystem) (p : path) : option node :=
  match p with
  | Rel [] => None
  | _ => resolve (fs_root fs) (absolute fs p)
  end.

Definition path_string (p : path) : string :=
  match p with
  | Abs cs => String.append "/" (String.concat "/" cs)
  | Rel cs => String.concat "/" cs
  end.

(** [pd.read_json(filepath, lines=True)]. *)
Definition read_json (fs : FileSystem) (filepath : path) : result DataFrame :=
  match locate fs filepath with
  | Some (File (Some df)) => Ok df
  | Some (File None) => Raise ParseError
  | Some (Dir _) => Raise IsADirectoryError
  | Some Unreadable => Raise PermissionError
  | None => Raise FileNotFoundError
  end.

(** [os.walk(top)], top-down: every directory below [top] with its entries,
    a directory before its sub-directories.  A directory that cannot be
    listed yields nothing, and so does a [top] that is missing or is no
    directory: [os.walk] ignores the error of listing it. *)
Fixpoint walk_node (root : path) (n : node) {struct n} : list (path * list (string * node)) :=
  match n with
  | File _ | Unreadable => []
  | Dir entries =>
      (root, entries)
        :: (fix walk_entries (es : list (string * node)) :=
              match es with
              | [] => []
              | (name, x) :: es' => walk_node (join root name) x ++ walk_entries es'
              end) entries
  end.

Definition os_walk (fs : FileSystem) (top : path) : list (path * list (string * node)) :=
  match locate fs top with
  | Some n => walk_node top n
  | None => []
  end.

(** [fnmatch] of a name against ['*.json'] as [glob] applies it: the name
    ends in [.json] and, a pattern that starts with a star matching no
    hidden name, does not start with a dot. *)
Definition ends_with (suffix s : string) : bool :=
  let n := String.length s in
  let k := String.length suffix in
  (k <=? n)%nat && String.eqb (substring (n - k) k s) suffix.

Definition matches_star_json (name : string) : bool :=
  negb (String.prefix "." name) && ends_with ".json" name.

(** [glob.glob(os.path.join(root, '*.json'))] in a directory [root] with the
    given entries: the matching names, files and directories alike, joined
    to [root].  The directory part is taken as it is written, which is what
    [glob] does when no component of [root] holds one of the characters
    [*], [?] and [[]; [glob] reads a component that holds one as a pattern
    of its own, and that case is outside this definition (see [no_glob]). *)
Definition glob_json (root : path) (entries : list (string * node)) : list path :=
  map (join root) (filter matches_star_json (map fst entries)).

(* ================================================================= *)
(** ** [etl.py] *)

Definition song_columns : list string :=
  ["song_id"; "title"; "artist_id"; "year"; "duration"].

Definition artist_columns : list string :=
  ["artist_id"; "artist_name"; "artist_location"; "artist_latitude"; "artist_longitude"].

Definition user_columns : list string :=
  ["userId"; "firstName"; "lastName"; "gender"; "level"].

Definition column_labels : list string :=
  ["start_time"; "hour"; "day"; "week"; "month"; "year"; "weekday"].

(** [process_song_file], from the frame of the file on. *)
Definition load_song_frame (df : DataFrame) : M unit :=
  (* insert song record *)
  song_df <- lift (getitem_list df song_columns) ;;
  song_data <- lift (values0 song_df) ;;
  cur_execute song_table_insert song_data ;;
  (* insert artist record *)
  artist_df <- lift (getitem_list df artist_columns) ;;
  artist_data <- lift (values0 artist_df) ;;
  cur_execute artist_table_insert artist_data.

Definition process_song_file (fs : FileSystem) (filepath : path) : M unit :=
  (* open song file *)
  df <- lift (read_json fs filepath) ;;
  load_song_frame df.

(** Lines 73 to 79 of [process_log_file]: the lookup of the song and artist
    identifiers of one event. *)
Definition lookup_ids (song artist length : value) : M (value * value) :=
  cur_execute song_select [song; artist; length] ;;
  results <- cur_fetchone ;;
  match results with
  | Some (songid, artistid) => ret (songid, artistid)
  | None => ret (VNull, VNull)
  end.

(** The body of the last loop of [process_log_file], for one row. *)
Definition insert_songplay (cols : list string) (row : list value) : M unit :=
  song <- lift (getattr cols row "song") ;;
  artist <- lift (getattr cols row "artist") ;;
  length <- lift (getattr cols row "length") ;;
  ids <- lookup_ids song artist length ;;
  ts <- lift (getattr cols row "ts") ;;
  userId <- lift (getattr cols row "userId") ;;
  level <- lift (getattr cols row "level") ;;
  sessionId <- lift (getattr cols row "sessionId") ;;
  location <- lift (getattr cols row "location") ;;
  userAgent <- lift (getattr cols row "userAgent") ;;
  cur_execute songplay_table_insert
    [ts; userId; level; fst ids; snd ids; sessionId; location; userAgent].

(** [process_log_file], from the frame of the file on. *)
Definition load_log_frame (df : DataFrame) : M unit :=
  (* filter by NextSong action *)
  page <- lift (getitem df "page") ;;
  let df_filter := map (eq_str "NextSong") page in
  let df := getitem_mask df df_filter in
  (* convert timestamp column to datetime *)
  ts <- lift (getitem df "ts") ;;
  ts <- lift (to_datetime ts) ;;
  let df := setitem df "ts" ts in
  let t := df in
  (* insert time data records *)
  t_ts <- lift (getitem t "ts") ;;
  let time_data :=
    [t_ts; dt Calendar.hour t_ts; dt Calendar.day t_ts; dt Calendar.week t_ts;
     dt Calendar.month t_ts; dt Calendar.year t_ts; dt Calendar.weekday t_ts] in
  let time_df := frame_of_columns column_labels time_data in
  for_each (rows time_df) (fun row => cur_execute time_table_insert row) ;;
  (* load user table *)
  user_df <- lift (getitem_list df user_columns) ;;
  (* insert user records *)
  for_each (rows user_df) (fun row => cur_execute user_table_insert row) ;;
  (* insert songplay records *)
  for_each (rows df) (insert_songplay (columns df)).

Definition process_log_file (fs : FileSystem) (filepath : path) : M unit :=
  (* open log file *)
  df <- lift (read_json fs filepath) ;;
  load_log_frame df.

Definition string_of_nat (n : nat) : string :=
  NilEmpty.string_of_uint (Nat.to_uint n).

(** ['{} files found in {}'.format(num_files, filepath)] and
    ['{}/{} files processed.'.format(i, num_files)]. *)
Definition files_found (num_files : nat) (filepath : path) : string :=
  String.append (string_of_nat num_files)
    (String.append " files found in " (path_string filepath)).

Definition files_processed (i num_files : nat) : string :=
  String.append (string_of_nat i)
    (String.append "/" (String.append (string_of_nat num_files) " files processed.")).

(** [enumerate(l, start)]. *)
Definition enumerate {A : Type} (start : nat) (l : list A) : list (nat * A) :=
  combine (seq start (List.length l)) l.

(** The files the first loop of [process_data] collects. *)
Definition all_files (fs : FileSystem) (filepath : path) : list path :=
  flat_map
    (fun rd => map (abspath fs) (glob_json (fst rd) (snd rd)))
    (os_walk fs filepath).

(** The second loop of [process_data]. *)
Definition process_files (fs : FileSystem) (func : FileSystem -> path -> M unit)
    (num_files : nat) (files : list (nat * path)) : M unit :=
  for_each files
    (fun id =>
       func fs (snd id) ;;
       conn_commit ;;
       print (files_processed (fst id) num_files)).

Definition process_data (fs : FileSystem) (filepath : path)
    (func : FileSystem -> path -> M unit) : M unit :=
  (* get all files matching extension from directory *)
  let all_files := all_files fs filepath in
  (* get total number of files found *)
  let num_files := List.length all_files in
  print (files_found num_files filepath) ;;
  (* iterate over files and process *)
  process_files fs func num_files (enumerate 1 all_files).

(** [main], between opening and closing the connection. *)
Definition main (fs : FileSystem) : M unit :=
  process_data fs (Rel ["data"; "song_data"]) process_song_file ;;
  process_data fs (Rel ["data"; "log_data"]) process_log_file.

(* ================================================================= *)
(** ** Vocabulary of the properties *)

Definition outcome {A : Type} (x : result A * Conn * list event) : result A :=
  fst (fst x).

Definition final {A : Type} (x : result A * Conn * list event) : Conn :=
  snd (fst x).

Definition events {A : Type} (x : result A * Conn * list event) : list event :=
  snd x.

Definition query_eqb (q q' : query) : bool :=
  match q, q' with
  | song_table_insert, song_table_insert
  | artist_table_insert, artist_table_insert
  | time_table_insert, time_table_insert
  | user_table_insert, user_table_insert
  | songplay_table_insert, songplay_table_insert
  | song_select, song_select => true
  | _, _ => false
  end.

(** The parameter lists with which [q] was executed, in order: the
    candidate rows of its table. *)
Fixpoint executed (q : query) (evs : list event) : list (list value) :=
  match evs with
  | [] => []
  | EExecute q' params :: evs' =>
      if query_eqb q q' then params :: executed q evs' else executed q evs'
  | _ :: evs' => executed q evs'
  end.

Definition is_execute (qs : list query) (e : event) : bool :=
  match e with
  | EExecute q _ => existsb (query_eqb q) qs
  | _ => false
  end.

(** The events of a file whose page is exactly ["NextSong"], in file
    order, and the file without the other events. *)
Definition next_song_rows (df : DataFrame) : list (list value) :=
  filter (fun r => eq_str "NextSong" (field (columns df) r "page")) (rows df).

Definition only_next_song (df : DataFrame) : DataFrame :=
  mkDataFrame (columns df) (next_song_rows df).

(** The time row of a timestamp, and the songplay row of an event [r] with
    timestamp [t] and looked-up identifiers [ids]. *)
Definition time_record (t : value) : list value :=
  [t; dt_cell Calendar.hour t; dt_cell Calendar.day t; dt_cell Calendar.week t;
   dt_cell Calendar.month t; dt_cell Calendar.year t; dt_cell Calendar.weekday t].

Definition songplay_record (cols : list string) (r : list value) (t : value)
    (ids : value * value) : list value :=
  [t; field cols r "userId"; field cols r "level"; fst ids; snd ids;
   field cols r "sessionId"; field cols r "location"; field cols r "userAgent"].

(** What the last loop of [process_log_file] does for one event: the lookup
    and the insert. *)
Definition songplay_events (cols : list string) (r : list value) (t : value)
    (ids : value * value) : list event :=
  [EExecute song_select [field cols r "song"; field cols r "artist"; field cols r "length"];
   EExecute songplay_table_insert (songplay_record cols r t ids)].

(** The identifiers of a songplay row (its fourth and fifth parameter) are
    both null or both not. *)
Definition ids_paired (params : list value) : bool :=
  Bool.eqb (is_null (nth 3 params VNull)) (is_null (nth 4 params VNull)).

(** Every song of the store has its identifier. *)
Definition song_keys_present (st : Store) : bool :=
  forallb (fun s => negb (is_null (song_id s))) (songs st).

Definition has_columns (df : DataFrame) (cs : list string) : bool :=
  forallb (fun c => existsb (String.eqb c) (columns df)) cs.

(** The rows of a filtered frame with the converted timestamps [ts] written
    into column [i]. *)
Definition with_timestamps (i : nat) (rs : list (list value)) (ts : list value)
  : list (list value) :=
  map (fun rv => set_cell i (snd rv) (fst rv)) (combine rs ts).

(** [hoare P m R Q]: started where [P] holds, [m] ends where [P] holds
    (also when it raises), causes only events that satisfy [Q], and
    returns only values that satisfy [R]. *)
Definition hoare {A : Type} (P : Conn -> Prop) (m : M A) (R : A -> Prop)
    (Q : event -> Prop) : Prop :=
  forall c, P c ->
    P (final (m c)) /\ Forall Q (events (m c))
    /\ forall a, outcome (m c) = Ok a -> R a.

(* ================================================================= *)
(** ** Sample data *)

Module Samples.

(** 200.0 and 1.0 as binary64 values. *)
Definition f200 : value := VFloat (S754_finite false 7036874417766400 (-45)).
Definition f1 : value := VFloat (S754_finite false 4503599627370496 (-52)).

Definition catalog_columns : list string :=
  ["num_songs"; "artist_id"; "artist_latitude"; "artist_longitude";
   "artist_location"; "artist_name"; "song_id"; "title"; "duration"; "year"].

Definition catalog_record (song_id title artist_id artist_name : string)
    (duration : value) : list value :=
  [VInt 1; VStr artist_id; VNull; VNull; VStr "Nowhere"; VStr artist_name;
   VStr song_id; VStr title; duration; VInt 2000].

Definition fake_song : DataFrame :=
  mkDataFrame catalog_columns
    [catalog_record "S1" "Fake Song" "A1" "Fake Artist" f200].

Definition other_song : DataFrame :=
  mkDataFrame catalog_columns
    [catalog_record "S3" "Third Song" "A3" "Third Artist" f1].

(** A catalog file with two records. *)
Definition two_songs : DataFrame :=
  mkDataFrame catalog_columns
    [catalog_record "S1" "Fake Song" "A1" "Fake Artist" f200;
     catalog_record "S2" "Second Song" "A2" "Second Artist" f1].

Definition log_columns : list string :=
  ["artist"; "firstName"; "gender"; "lastName"; "length"; "level"; "location";
   "page"; "sessionId"; "song"; "ts"; "userAgent"; "userId"].

Definition log_event (page : string) (ts user : Z) (level : string)
    (song artist length : value) : list value :=
  [artist; VStr "Ada"; VStr "F"; VStr "Lovelace"; length; VStr level;
   VStr "London"; VStr page; VInt 7; song; VInt ts; VStr "Mozilla"; VInt user].

(** 2023-03-15 13:45:00 UTC in milliseconds. *)
Definition wednesday : Z := 1678887900000.

Definition play_known : list value :=
  log_event "NextSong" wednesday 10 "free"
    (VStr "Fake Song") (VStr "Fake Artist") f200.

Definition visit_home : list value :=
  log_event "Home" (wednesday + 1000) 10 "free" VNull VNull VNull.

Definition play_unknown : list value :=
  log_event "NextSong" (wednesday + 2000) 11 "paid"
    (VStr "Unknown") (VStr "Nobody") f1.

Definition day_log : DataFrame :=
  mkDataFrame log_columns [play_known; visit_home; play_unknown].

Definition plays_only : DataFrame :=
  mkDataFrame log_columns [play_known; play_unknown].

(** Three catalog files, the second of which is not JSON; a nested
    catalog with a hidden file; two activity logs. *)
Definition disk : FileSystem :=
  mkFileSystem
    (Dir
       [("home",
         Dir
           [("data",
             Dir
               [("broken_data",
                 Dir
                   [("a.json", File (Some fake_song));
                    ("b.json", File None);
                    ("c.json", File (Some other_song))]);
                ("song_data",
                 Dir
                   [("A",
                     Dir
                       [("B", Dir [("deep.json", File (Some other_song))]);
                        (".hidden.json", File (Some two_songs));
                        ("notes.txt", File None)]);
                    ("top.json", File (Some fake_song));
                    ("two.json", File (Some two_songs));
                    ("first.json", File (Some (mkDataFrame catalog_columns
                       [catalog_record "S1" "Fake Song" "A1" "Fake Artist" f200])))]);
                ("log_data",
                 Dir
                   [("day.json", File (Some day_log));
                    ("plays.json", File (Some plays_only))])])])])
    ["home"].

Definition catalog : Store :=
  mkStore
    [mkSong (VStr "S1") (VStr "Fake Song") (VStr "A1") (VInt 2000) f200]
    [mkArtist (VStr "A1") (VStr "Fake Artist") (VStr "Nowhere") VNull VNull]
    [] [] [].

End Samples.

(** An event is fine when, if it is a songplay insert, its identifiers are
    paired. *)
Definition songplay_ids_paired (e : event) : Prop :=
  match e with
  | EExecute q params => query_eqb songplay_table_insert q = true -> ids_paired params = true
  | _ => True
  end.

(** The lines a run prints, in order. *)
Fixpoint printed (evs : list event) : list string :=
  match evs with
  | [] => []
  | EPrint line :: evs' => line :: printed evs'
  | _ :: evs' => printed evs'
  end.

Definition is_statement (e : event) : bool :=
  match e with
  | EExecute _ _ => true
  | _ => false
  end.

(** The connection right after [conn.commit()]. *)
Definition committed (c : Conn) : Conn :=
  mkConn (working c) (working c) (fetched c).

(* ================================================================= *)
(** ** Vocabulary of the further properties *)

(** The number of commits of a run. *)
Fixpoint commits (evs : list event) : nat :=
  match evs with
  | [] => O
  | ECommit :: evs' => S (commits evs')
  | _ :: evs' => commits evs'
  end.

(** The columns the last loop of [process_log_file] reads from a row, in
    the order it reads them. *)
Definition songplay_attributes : list string :=
  ["song"; "artist"; "length"; "ts"; "userId"; "level"; "sessionId";
   "location"; "userAgent"].

Definition components (p : path) : list string :=
  match p with
  | Abs cs | Rel cs => cs
  end.

(** Frames and files for the edge cases. *)
Module Edge.

(** A catalog record without its artist columns. *)
Definition song_only : DataFrame :=
  mkDataFrame ["song_id"; "title"; "artist_id"; "year"; "duration"]
    [[VStr "S9"; VStr "Lone Song"; VStr "A9"; VInt 1999; Samples.f1]].

(** A catalog file without records. *)
Definition no_records : DataFrame := mkDataFrame Samples.catalog_columns [].

(** A day on which nobody played a song. *)
Definition quiet_day : DataFrame :=
  mkDataFrame Samples.log_columns [Samples.visit_home].

(** The year 2263 is beyond the last [Timestamp]. *)
Definition far_future : Z := 9250000000000.

Definition late_play : list value :=
  Samples.log_event "NextSong" far_future 11 "paid"
    (VStr "Unknown") (VStr "Nobody") Samples.f1.

Definition late_day : DataFrame :=
  mkDataFrame Samples.log_columns [Samples.play_known; late_play].

(** Plays whose events carry no user fields. *)
Definition anonymous_plays : DataFrame :=
  mkDataFrame ["page"; "ts"; "song"; "artist"; "length"]
    [[VStr "NextSong"; VInt Samples.wednesday; VStr "Fake Song";
      VStr "Fake Artist"; Samples.f200];
     [VStr "NextSong"; VInt (Samples.wednesday + 5000); VStr "Unknown";
      VStr "Nobody"; Samples.f1]].

(** Plays whose events carry no user agent. *)
Definition no_agent_columns : list string :=
  ["artist"; "firstName"; "gender"; "lastName"; "length"; "level"; "location";
   "page"; "sessionId"; "song"; "ts"; "userId"].

Definition no_agent_plays : DataFrame :=
  mkDataFrame no_agent_columns
    [[VStr "Fake Artist"; VStr "Ada"; VStr "F"; VStr "Lovelace"; Samples.f200;
      VStr "free"; VStr "London"; VStr "NextSong"; VInt 7; VStr "Fake Song";
      VInt Samples.wednesday; VInt 10]].

Definition disk : FileSystem :=
  mkFileSystem
    (Dir
       [("song_only.json", File (Some song_only));
        ("no_records.json", File (Some no_records));
        ("quiet_day.json", File (Some quiet_day));
        ("late_day.json", File (Some late_day));
        ("anonymous.json", File (Some anonymous_plays));
        ("no_agent.json", File (Some no_agent_plays));
        ("data",
         Dir
           [("song_data", Dir [("a.json", File (Some Samples.fake_song))]);
            ("log_data", Dir [("day.json", File (Some Samples.day_log))])])])
    [].

End Edge.

(** A cell of an integer column as pandas reads one from JSON: a 64-bit
    integer, and not the least one, which pandas takes for a missing time. *)
Definition int64_cell (v : value) : bool :=
  match v with
  | VInt k => (- 9223372036854775808 <? k) && (k <? 9223372036854775808)
  | _ => false
  end.

(* ================================================================= *)
(** ** Names *)

Fixpoint has_char (a : ascii) (s : string) : bool :=
  match s with
  | EmptyString => false
  | String b s' => Ascii.eqb a b || has_char a s'
  end.

(** A name without the characters [glob] reads as a pattern. *)
Definition no_glob (name : string) : bool :=
  negb (has_char "*" name || has_char "?" name || has_char "[" name).

(** A name an entry of a directory can have. *)
Definition plain_name (name : string) : bool :=
  negb (stays name) && negb (leaves name) && negb (has_char "/" name).

Definition is_file (n : node) : bool :=
  match n with
  | File _ => true
  | _ => false
  end.

(** A tree whose entries all have plain names and whose directories have
    names without [glob] characters. *)
Fixpoint names_ok (n : node) : bool :=
  match n with
  | File _ | Unreadable => true
  | Dir entries =>
      (fix entries_ok (es : list (string * node)) : bool :=
         match es with
         | [] => true
         | (name, x) :: es' =>
             plain_name name && (is_file x || no_glob name)
             && names_ok x && entries_ok es'
         end) entries
  end.

(** [trail root kept parents n]: going down from [root] through the entries
    named in [kept], last name first, leads to [n], past [parents]. *)
Inductive trail (root : node) : list string -> list node -> node -> Prop :=
| trail_root : trail root [] [] root
| trail_entry kept parents entries name x :
    trail root kept parents (Dir entries) ->
    stays name = false ->
    leaves name = false ->
    find_entry name entries = Some x ->
    trail root (name :: kept) (Dir entries :: parents) x.

(** Roots written with dots, and a directory that may not be read. *)
Module Places.

Definition disk : FileSystem :=
  mkFileSystem
    (Dir
       [("home",
         Dir
           [("data",
             Dir
               [("song_data",
                 Dir
                   [("a.json", File (Some Samples.fake_song));
                    ("vault", Unreadable);
                    ("B", Dir [("b.json", File (Some Samples.other_song))])]);
                ("vault", Unreadable);
                ("notes.txt", File None)])])])
    ["home"].

End Places.

(* ================================================================= *)
(** * Properties *)

(** ** The calendar fields on known dates *)

Example epoch_is_1970_01_01 :
  Calendar.civil_of_days 0 = (1970, 1, 1) /\ Calendar.weekday 0 = 3.
Proof. split; reflexivity. Qed.

Example leap_days :
  Calendar.civil_of_days (Calendar.days_of_civil 2000 2 29) = (2000, 2, 29)
  /\ Calendar.civil_of_days (Calendar.days_of_civil 2000 2 29 + 1) = (2000, 3, 1)
  /\ Calendar.civil_of_days (Calendar.days_of_civil 1900 2 28 + 1) = (1900, 3, 1)
  /\ Calendar.civil_of_days (-1) = (1969, 12, 31).
Proof. repeat split; reflexivity. Qed.

(** Year boundaries of the ISO week: Sunday 2021-01-03 is still in week 53
    of 2020, Monday 2019-12-30 is already in week 1 of 2020, and Thursday
    2018-11-01 is in week 44. *)
Example iso_weeks :
  Calendar.week (Calendar.days_of_civil 2021 1 3 * Calendar.ms_per_day) = 53
  /\ Calendar.week (Calendar.days_of_civil 2019 12 30 * Calendar.ms_per_day) = 1
  /\ Calendar.week (Calendar.days_of_civil 2018 11 1 * Calendar.ms_per_day) = 44
  /\ Calendar.week (Calendar.days_of_civil 2016 1 1 * Calendar.ms_per_day) = 53
  /\ Calendar.week (Calendar.days_of_civil 2015 12 31 * Calendar.ms_per_day) = 53.
Proof. repeat split; vm_compute; reflexivity. Qed.

(** The two directions of the calendar agree on every day, and the month
    and the day of the month are in range. *)
Lemma year_of_era_bounds doe :
  0 <= doe < 146097 ->
  0 <= (doe - doe / 1460 + doe / 36524 - doe / 146096) / 365 <= 399
  /\ 0 <= doe - (365 * ((doe - doe / 1460 + doe / 36524 - doe / 146096) / 365)
                 + (doe - doe / 1460 + doe / 36524 - doe / 146096) / 365 / 4
                 - (doe - doe / 1460 + doe / 36524 - doe / 146096) / 365 / 100) <= 365.
Proof. intros H. Z.div_mod_to_equations. lia. Qed.

Lemma month_of_year_bounds doy :
  0 <= doy <= 365 ->
  0 <= (5 * doy + 2) / 153 <= 11
  /\ 1 <= doy - (153 * ((5 * doy + 2) / 153) + 2) / 5 + 1 <= 31.
Proof. intros H. Z.div_mod_to_equations. lia. Qed.

Lemma civil_of_days_inverse z :
  Calendar.days_of_civil (fst (fst (Calendar.civil_of_days z)))
    (snd (fst (Calendar.civil_of_days z))) (snd (Calendar.civil_of_days z)) = z
  /\ 1 <= snd (fst (Calendar.civil_of_days z)) <= 12
  /\ 1 <= snd (Calendar.civil_of_days z) <= 31.
Proof.
  unfold Calendar.civil_of_days. cbv zeta. cbn [fst snd].
  set (era := (z + 719468) / 146097).
  set (doe := z + 719468 - era * 146097).
  assert (Hdoe : 0 <= doe < 146097).
  { unfold doe, era. pose proof (Z.mod_pos_bound (z + 719468) 146097) as H.
    rewrite Z.mod_eq in H by lia. lia. }
  destruct (year_of_era_bounds doe Hdoe) as [Hyoe Hdoy].
  set (yoe := (doe - doe / 1460 + doe / 36524 - doe / 146096) / 365) in *.
  set (doy := doe - (365 * yoe + yoe / 4 - yoe / 100)) in *.
  destruct (month_of_year_bounds doy Hdoy) as [Hmp Hd].
  set (mp := (5 * doy + 2) / 153) in *.
  set (d := doy - (153 * mp + 2) / 5 + 1) in *.
  unfold Calendar.days_of_civil. cbv zeta.
  destruct (mp <? 10) eqn:Emp; [apply Z.ltb_lt in Emp | apply Z.ltb_ge in Emp].
  - replace (mp + 3 <=? 2) with false by (symmetry; apply Z.leb_gt; lia).
    replace (2 <? mp + 3) with true by (symmetry; apply Z.ltb_lt; lia).
    replace (mp + 3 - 3) with mp by lia.
    replace (yoe + era * 400 + 0) with (yoe + era * 400) by lia.
    rewrite Z.div_add, (Z.div_small yoe 400) by lia.
    replace (yoe + era * 400 - (0 + era) * 400) with yoe by lia.
    split; [unfold d, doy, doe; lia | lia].
  - replace (mp - 9 <=? 2) with true by (symmetry; apply Z.leb_le; lia).
    replace (2 <? mp - 9) with false by (symmetry; apply Z.ltb_ge; lia).
    replace (mp - 9 + 9) with mp by lia.
    replace (yoe + era * 400 + 1 - 1) with (yoe + era * 400) by lia.
    rewrite Z.div_add, (Z.div_small yoe 400) by lia.
    replace (yoe + era * 400 - (0 + era) * 400) with yoe by lia.
    split; [unfold d, doy, doe; lia | lia].
Qed.

Lemma clock_fields_in_range ms :
  0 <= Calendar.hour ms <= 23 /\ 0 <= Calendar.weekday ms <= 6.
Proof.
  unfold Calendar.hour, Calendar.weekday, Calendar.ms_per_day, Calendar.ms_per_hour.
  Z.div_mod_to_equations. lia.
Qed.

(** ** Frames *)

Section Frames.

Lemma column_index_field cols r c i :
  column_index c cols = Some i -> field cols r c = cell i r.
Proof. unfold field. intros ->. reflexivity. Qed.

Lemma getattr_field cols r c i :
  column_index c cols = Some i -> getattr cols r c = Ok (field cols r c).
Proof. unfold getattr, field. intros ->. reflexivity. Qed.

Lemma column_index_label c cols i :
  column_index c cols = Some i -> nth_error cols i = Some c.
Proof.
  revert i. induction cols as [|c' cols IH]; intros i; simpl; [discriminate|].
  destruct (String.eqb c c') eqn:E.
  - intros [= <-]. apply String.eqb_eq in E. subst. reflexivity.
  - destruct (column_index c cols) as [j|]; simpl; [|discriminate].
    intros [= <-]. simpl. apply IH. reflexivity.
Qed.

Lemma column_index_inj c c' cols i :
  column_index c cols = Some i -> column_index c' cols = Some i -> c = c'.
Proof.
  intros H H'. apply column_index_label in H, H'. congruence.
Qed.

Lemma has_column_index c cols :
  existsb (String.eqb c) cols = true -> exists i, column_index c cols = Some i.
Proof.
  induction cols as [|c' cols IH]; simpl; [discriminate|].
  destruct (String.eqb c c'); simpl.
  - intros _. now exists O.
  - intros H. destruct (IH H) as [i ->]. now exists (S i).
Qed.

Lemma column_indices_fields cs cols :
  forallb (fun c => existsb (String.eqb c) cols) cs = true ->
  exists ixs, column_indices cs cols = Ok ixs
    /\ forall r, map (fun i => cell i r) ixs = map (field cols r) cs.
Proof.
  induction cs as [|c cs IH]; simpl.
  - intros _. exists []. split; reflexivity.
  - intros H. apply andb_true_iff in H as [Hc Hcs].
    destruct (has_column_index _ _ Hc) as [i Hi].
    destruct (IH Hcs) as (ixs & E & F).
    rewrite Hi, E. exists (i :: ixs). split; [reflexivity|].
    intros r. simpl. rewrite F. unfold field at 2. rewrite Hi. reflexivity.
Qed.

(** [df[[...]]] looks at the labels only: it succeeds or fails alike on
    frames with the same columns, and projects row by row. *)
Lemma getitem_list_rows df cs sub :
  getitem_list df cs = Ok sub ->
  exists ixs, column_indices cs (columns df) = Ok ixs
    /\ sub = mkDataFrame cs (map (fun r => map (fun i => cell i r) ixs) (rows df)).
Proof.
  unfold getitem_list.
  destruct (column_indices cs (columns df)) as [ixs|e]; [|discriminate].
  intros [= <-]. now exists ixs.
Qed.

Lemma getitem_mask_rows df i s :
  rows (getitem_mask df (map (eq_str s) (map (cell i) (rows df))))
  = filter (fun r => eq_str s (cell i r)) (rows df).
Proof.
  unfold getitem_mask. simpl.
  induction (rows df) as [|r rs IH]; simpl; [reflexivity|].
  destruct (eq_str s (cell i r)); simpl; now rewrite IH.
Qed.

Lemma cell_set_cell_same i v r : cell i (set_cell i v r) = v.
Proof.
  unfold cell. revert r.
  induction i as [|i IH]; intros [|x r]; simpl; auto.
Qed.

Lemma cell_set_cell_other i j v r : i <> j -> cell j (set_cell i v r) = cell j r.
Proof.
  unfold cell. revert j r.
  induction i as [|i IH]; intros [|j] [|x r] H; simpl; try congruence; auto.
  - now destruct j.
  - rewrite IH by congruence. now destruct j.
Qed.

Lemma field_set_cell_same cols c i v r :
  column_index c cols = Some i -> field cols (set_cell i v r) c = v.
Proof.
  intros H. rewrite (column_index_field _ _ _ _ H). apply cell_set_cell_same.
Qed.

Lemma field_set_cell_other cols c c' i v r :
  column_index c cols = Some i -> c' <> c ->
  field cols (set_cell i v r) c' = field cols r c'.
Proof.
  intros H Hne. unfold field.
  destruct (column_index c' cols) as [j|] eqn:E; [|reflexivity].
  apply cell_set_cell_other. intros ->.
  apply Hne. eapply column_index_inj; eassumption.
Qed.

Lemma map_cell_set_cell i (rs : list (list value)) (series : list value) :
  List.length series = List.length rs ->
  map (cell i) (map (fun rv => set_cell i (snd rv) (fst rv)) (combine rs series))
  = series.
Proof.
  revert series. induction rs as [|r rs IH]; intros [|v series]; simpl;
    try discriminate; [reflexivity|].
  intros [= H]. rewrite cell_set_cell_same, IH by assumption. reflexivity.
Qed.

Lemma map_nth_seq {A B : Type} (g : A -> B) (d : A) (l : list A) :
  map (fun i => g (nth i l d)) (seq 0 (List.length l)) = map g l.
Proof.
  induction l as [|x l IH]; simpl; [reflexivity|].
  rewrite <- seq_shift, map_map. simpl. now rewrite IH.
Qed.

Lemma nth_map_null (f : value -> value) (l : list value) i :
  (i < List.length l)%nat -> nth i (map f l) VNull = f (nth i l VNull).
Proof.
  intros H. rewrite (nth_indep _ VNull (f VNull)) by now rewrite length_map.
  apply map_nth.
Qed.

(** The frame built from the seven Series holds one time row per
    timestamp. *)
Lemma time_frame_rows (ts : list value) :
  rows (frame_of_columns column_labels
          [ts; dt Calendar.hour ts; dt Calendar.day ts; dt Calendar.week ts;
           dt Calendar.month ts; dt Calendar.year ts; dt Calendar.weekday ts])
  = map time_record ts.
Proof.
  unfold frame_of_columns. cbn [rows hd].
  rewrite <- (map_nth_seq time_record VNull ts).
  apply map_ext_in. intros i Hi. apply in_seq in Hi.
  unfold time_record, dt. cbn [map].
  rewrite !nth_map_null by lia. reflexivity.
Qed.

Lemma to_datetime_length series ts :
  to_datetime series = Ok ts -> List.length ts = List.length series.
Proof.
  revert ts. induction series as [|v series IH]; simpl; intros ts.
  - now intros [= <-].
  - destruct (to_datetime_ms v); [|discriminate].
    destruct (to_datetime series); [|discriminate].
    intros [= <-]. simpl. f_equal. now apply IH.
Qed.

End Frames.

(** ** The monad, and a small program logic over it *)

Section Programs.

Lemma bind_lift {A B : Type} (r : result A) (k : A -> M B) c :
  bind (lift r) k c
  = match r with Ok a => k a c | Raise e => (Raise e, c, []) end.
Proof.
  unfold bind, lift. destruct r as [a|e]; [|reflexivity].
  now destruct (k a c) as [[r2 c2] ev2].
Qed.

Lemma bind_run {A B : Type} (m : M A) (k : A -> M B) c :
  bind m k c
  = match outcome (m c) with
    | Ok a =>
        (outcome (k a (final (m c))), final (k a (final (m c))),
         events (m c) ++ events (k a (final (m c))))
    | Raise e => (Raise e, final (m c), events (m c))
    end.
Proof.
  unfold bind, outcome, final, events.
  destruct (m c) as [[[a|e] c1] ev1]; simpl; [|reflexivity].
  now destruct (k a c1) as [[r2 c2] ev2].
Qed.

Lemma run_eta {A : Type} (x : result A * Conn * list event) :
  x = (outcome x, final x, events x).
Proof. now destruct x as [[r c] ev]. Qed.

Lemma outcome_run {A : Type} (r : result A) c ev : outcome (r, c, ev) = r.
Proof. reflexivity. Qed.

Lemma final_run {A : Type} (r : result A) c ev : final (r, c, ev) = c.
Proof. reflexivity. Qed.

Lemma events_run {A : Type} (r : result A) c ev : events (r, c, ev) = ev.
Proof. reflexivity. Qed.

Lemma bind_ext {A B : Type} (m : M A) (k k' : A -> M B) c :
  (forall a c', k a c' = k' a c') -> bind m k c = bind m k' c.
Proof.
  intros H. rewrite !bind_run.
  destruct (outcome (m c)) as [a|e]; [|reflexivity]. now rewrite H.
Qed.

Lemma bind_step_ok {A B : Type} (m : M A) (k : A -> M B) c a c1 ev1 :
  m c = (Ok a, c1, ev1) ->
  bind m k c = (outcome (k a c1), final (k a c1), ev1 ++ events (k a c1)).
Proof. intros H. rewrite bind_run, H. reflexivity. Qed.

Lemma bind_step_raise {A B : Type} (m : M A) (k : A -> M B) c e c1 ev1 :
  m c = (Raise e, c1, ev1) -> bind m k c = (Raise e, c1, ev1).
Proof. intros H. rewrite bind_run, H. reflexivity. Qed.

Lemma hoare_ret {A : Type} P (a : A) (R : A -> Prop) Q :
  R a -> hoare P (ret a) R Q.
Proof.
  intros Ha c Hc. repeat split; simpl; auto.
  intros a' [= <-]. exact Ha.
Qed.

Lemma hoare_lift {A : Type} P (r : result A) (R : A -> Prop) Q :
  (forall a, r = Ok a -> R a) -> hoare P (lift r) R Q.
Proof. intros Hr c Hc. repeat split; simpl; auto. Qed.

Lemma hoare_bind {A B : Type} P (m : M A) (k : A -> M B) R R' Q :
  hoare P m R Q -> (forall a, R a -> hoare P (k a) R' Q) ->
  hoare P (bind m k) R' Q.
Proof.
  intros Hm Hk c Hc. destruct (Hm c Hc) as (H1 & H2 & H3).
  rewrite bind_run.
  destruct (outcome (m c)) as [a|e] eqn:E; unfold final, events, outcome;
    cbn [fst snd].
  - destruct (Hk a (H3 a eq_refl) _ H1) as (K1 & K2 & K3).
    repeat split; auto. apply Forall_app. split; assumption.
  - repeat split; auto. discriminate.
Qed.

Lemma hoare_consequence {A : Type} P (m : M A) (R R' : A -> Prop) Q :
  hoare P m R Q -> (forall a, R a -> R' a) -> hoare P m R' Q.
Proof.
  intros Hm HR c Hc. destruct (Hm c Hc) as (H1 & H2 & H3).
  repeat split; auto.
Qed.

Lemma hoare_for_each {A : Type} P (l : list A) (body : A -> M unit) Q :
  (forall x, In x l -> hoare P (body x) (fun _ => True) Q) ->
  hoare P (for_each l body) (fun _ => True) Q.
Proof.
  induction l as [|x l IH]; intros Hb; simpl.
  - now apply hoare_ret.
  - eapply hoare_bind.
    + apply Hb. now left.
    + intros _ _. apply IH. intros y Hy. apply Hb. now right.
Qed.

Lemma hoare_print P line Q :
  Q (EPrint line) -> hoare P (print line) (fun _ => True) Q.
Proof. intros HQ c Hc. repeat split; simpl; auto. Qed.

(** A loop of single statements runs them in order, up to and including
    the first that is refused. *)
Lemma for_each_execute {A : Type} q (g : A -> list value) (l : list A) c :
  exists l1 l2,
    l = l1 ++ l2
    /\ events (for_each l (fun x => cur_execute q (g x)) c)
       = map (fun x => EExecute q (g x)) l1
    /\ (outcome (for_each l (fun x => cur_execute q (g x)) c) = Ok tt -> l2 = [])
    /\ (l2 <> [] -> exists e,
          outcome (for_each l (fun x => cur_execute q (g x)) c) = Raise e).
Proof.
  revert c. induction l as [|x l IH]; intros c.
  - exists [], []. simpl. repeat split; auto. congruence.
  - cbn [for_each]. rewrite bind_run.
    assert (Hx : events (cur_execute q (g x) c) = [EExecute q (g x)]).
    { unfold cur_execute.
      now destruct (execute_on q (g x) (working c)) as [[st rs]|e]. }
    rewrite Hx.
    destruct (outcome (cur_execute q (g x) c)) as [[]|e] eqn:Ho.
    + destruct (IH (final (cur_execute q (g x) c)))
        as (l1 & l2 & E & Ev & Hok & Hko).
      exists (x :: l1), l2. rewrite E at 1. split; [reflexivity|].
      unfold outcome, events in *. cbn [fst snd]. rewrite Ev.
      repeat split; auto.
    + exists [x], l. unfold outcome, events. cbn [fst snd].
      repeat split; try discriminate.
      intros _. now exists e.
Qed.

End Programs.

(** ** The store *)

Section StoreFacts.

Lemma sql_eqb_not_null a b : sql_eqb a b = true -> is_null a = false /\ is_null b = false.
Proof. destruct a, b; simpl; try discriminate; auto. Qed.

Lemma upsert_in {A : Type} (key : A -> value) (r : A) (t : list A) :
  In r (upsert key r t).
Proof.
  induction t as [|x t IH]; simpl; [now left|].
  destruct (sql_eqb (key x) (key r)); [now left | now right].
Qed.

Lemma upsert_forallb {A : Type} (key : A -> value) (p : A -> bool) r t :
  p r = true -> forallb p t = true -> forallb p (upsert key r t) = true.
Proof.
  intros Hr. induction t as [|x t IH]; simpl; [now rewrite Hr|].
  intros H. apply andb_true_iff in H as [Hx Ht].
  destruct (sql_eqb (key x) (key r)); simpl.
  - now rewrite Hr, Ht.
  - now rewrite Hx, IH.
Qed.

(** No statement leaves a song without its identifier. *)
Lemma execute_on_song_keys q params st st' rs :
  execute_on q params st = Ok (st', rs) ->
  song_keys_present st = true -> song_keys_present st' = true.
Proof.
  unfold execute_on, song_keys_present.
  destruct q; repeat (destruct params as [|? params]; try discriminate);
    try (destruct (is_null v) eqn:Hv; try discriminate);
    intros [= <- <-]; simpl; auto.
  intros H. apply upsert_forallb; simpl; [now rewrite Hv | assumption].
Qed.

(** The statements of [process_log_file] leave the catalog alone. *)
Lemma execute_on_catalog q params st st' rs :
  q <> song_table_insert -> q <> artist_table_insert ->
  execute_on q params st = Ok (st', rs) ->
  songs st' = songs st /\ artists st' = artists st.
Proof.
  intros Hs Ha. unfold execute_on.
  destruct q; try congruence;
    repeat (destruct params as [|? params]; try discriminate);
    try (destruct (is_null v); try discriminate);
    intros [= <- <-]; simpl; auto.
Qed.

(** Every row of the lookup carries both identifiers. *)
Lemma select_song_ids st title name duration r :
  song_keys_present st = true ->
  In r (select_song st title name duration) ->
  is_null (fst r) = false /\ is_null (snd r) = false.
Proof.
  unfold select_song, catalog_matches, joined_catalog, song_keys_present.
  intros Hk Hr. apply in_map_iff in Hr as ([s a] & <- & Hin).
  apply filter_In in Hin as [Hin _].
  apply in_flat_map in Hin as (s' & Hs' & Hin).
  apply in_map_iff in Hin as (a' & [= <- <-] & Ha').
  apply filter_In in Ha' as [_ Hj].
  rewrite forallb_forall in Hk. specialize (Hk _ Hs').
  apply sql_eqb_not_null in Hj as [_ Hj]. simpl.
  split; [now apply negb_true_iff in Hk | assumption].
Qed.

(** The lookup, run: one statement, whose first row is the answer. *)
Lemma lookup_ids_run song artist length c :
  lookup_ids song artist length c
  = (Ok (hd (VNull, VNull) (select_song (working c) song artist length)),
     mkConn (durable c) (working c)
       (Some (tl (select_song (working c) song artist length))),
     [EExecute song_select [song; artist; length]]).
Proof.
  unfold lookup_ids, bind, cur_execute, cur_fetchone. simpl.
  destruct (select_song (working c) song artist length) as [|[s a] rs];
    reflexivity.
Qed.

End StoreFacts.

(** ** [process_log_file], loop by loop *)

Section LogFile.

Lemma getattr_ok cols r c v : getattr cols r c = Ok v -> v = field cols r c.
Proof.
  unfold getattr, field. destruct (column_index c cols); congruence.
Qed.

Lemma column_indices_ok cs cols ixs :
  column_indices cs cols = Ok ixs ->
  forall r, map (fun i => cell i r) ixs = map (field cols r) cs.
Proof.
  revert ixs. induction cs as [|c cs IH]; simpl; intros ixs.
  - now intros [= <-].
  - destruct (column_index c cols) as [i|] eqn:Hi; [|discriminate].
    destruct (column_indices cs cols) as [ixs'|]; [|discriminate].
    intros [= <-] r. simpl. rewrite (IH _ eq_refl).
    now rewrite (column_index_field _ _ _ _ Hi).
Qed.

(** One turn of the last loop: it stops at a missing column before the
    lookup, or after it, or runs the lookup and then the insert. *)
Lemma insert_songplay_cases cols row c :
  (exists e, insert_songplay cols row c = (Raise e, c, []))
  \/ (exists e c',
        insert_songplay cols row c
        = (Raise e, c',
           [EExecute song_select
              [field cols row "song"; field cols row "artist"; field cols row "length"]])
        /\ working c' = working c /\ durable c' = durable c)
  \/ (exists c',
        insert_songplay cols row c
        = (Ok tt, c',
           songplay_events cols row (field cols row "ts")
             (hd (VNull, VNull)
                (select_song (working c) (field cols row "song")
                   (field cols row "artist") (field cols row "length"))))
        /\ songs (working c') = songs (working c)
        /\ artists (working c') = artists (working c)
        /\ durable c' = durable c).
Proof.
  unfold insert_songplay.
  rewrite bind_lift.
  destruct (getattr cols row "song") as [song|e] eqn:E1; [|left; now exists e].
  rewrite bind_lift.
  destruct (getattr cols row "artist") as [artist|e] eqn:E2; [|left; now exists e].
  rewrite bind_lift.
  destruct (getattr cols row "length") as [len|e] eqn:E3; [|left; now exists e].
  apply getattr_ok in E1, E2, E3. subst song artist len.
  right. rewrite bind_run, lookup_ids_run.
  unfold outcome at 1, final, events at 1 2. cbn [fst snd].
  repeat
    (rewrite bind_lift;
     match goal with
     | |- context [getattr cols row ?c] =>
         let E := fresh "E" in
         destruct (getattr cols row c) as [?v|e] eqn:E;
         [apply getattr_ok in E; subst
         | left; exists e; eexists; cbn [outcome events fst snd app];
           split; [reflexivity | split; reflexivity]]
     end).
  right. unfold cur_execute, execute_on. cbn [working durable outcome events final fst snd app].
  eexists. split; [reflexivity|]. cbn. repeat split; reflexivity.
Qed.

Lemma songplay_loop_events cols (rs : list (list value)) c :
  Forall (fun e => is_execute [song_select; songplay_table_insert] e = true)
    (events (for_each rs (insert_songplay cols) c)).
Proof.
  revert c. induction rs as [|r rs IH]; intros c; cbn [for_each].
  - constructor.
  - destruct (insert_songplay_cases cols r c)
      as [(e & H) | [(e & c' & H & _) | (c' & H & _)]].
    + rewrite (bind_step_raise _ _ _ _ _ _ H). constructor.
    + rewrite (bind_step_raise _ _ _ _ _ _ H). repeat constructor.
    + rewrite (bind_step_ok _ _ _ _ _ _ H), events_run.
      apply Forall_app. split; [repeat constructor | apply IH].
Qed.

(** A last loop that ends well has run the lookup and the insert of every
    row, in order. *)
Lemma songplay_loop_ok cols (rs : list (list value)) c :
  outcome (for_each rs (insert_songplay cols) c) = Ok tt ->
  exists idss,
    List.length idss = List.length rs
    /\ events (for_each rs (insert_songplay cols) c)
       = List.concat
           (map (fun ri => songplay_events cols (fst ri) (field cols (fst ri) "ts") (snd ri))
              (combine rs idss)).
Proof.
  revert c. induction rs as [|r rs IH]; intros c; cbn [for_each].
  - intros _. now exists [].
  - destruct (insert_songplay_cases cols r c)
      as [(e & H) | [(e & c' & H & _) | (c' & H & _)]].
    + rewrite (bind_step_raise _ _ _ _ _ _ H), outcome_run. discriminate.
    + rewrite (bind_step_raise _ _ _ _ _ _ H), outcome_run. discriminate.
    + rewrite (bind_step_ok _ _ _ _ _ _ H), outcome_run, events_run.
      intros Hok. destruct (IH c' Hok) as (idss & Hl & Hev).
      eexists (_ :: idss). split; [simpl; now rewrite Hl|].
      cbn [combine map List.concat fst snd]. now rewrite Hev.
Qed.

(** The part of [process_log_file] before its loops: it fails without a
    trace, or leaves the NextSong rows with their timestamps converted. *)
Lemma load_log_frame_prepared df c :
  (exists e, load_log_frame df c = (Raise e, c, []))
  \/ (exists i ts,
        column_index "ts" (columns df) = Some i
        /\ to_datetime (map (fun r => field (columns df) r "ts") (next_song_rows df)) = Ok ts
        /\ load_log_frame df c
           = (for_each (map time_record ts) (fun row => cur_execute time_table_insert row) ;;
              user_df <- lift (getitem_list
                                 (mkDataFrame (columns df)
                                    (with_timestamps i (next_song_rows df) ts))
                                 user_columns) ;;
              for_each (rows user_df) (fun row => cur_execute user_table_insert row) ;;
              for_each (with_timestamps i (next_song_rows df) ts)
                (insert_songplay (columns df)))%etl c).
Proof.
  unfold load_log_frame. rewrite bind_lift.
  destruct (getitem df "page") as [page|e] eqn:Hpage;
    [|left; eexists; reflexivity].
  unfold getitem in Hpage.
  destruct (column_index "page" (columns df)) as [ip|] eqn:Hp; [|discriminate].
  injection Hpage as <-.
  cbv zeta. rewrite bind_lift.
  set (df1 := getitem_mask df (map (eq_str "NextSong") (map (cell ip) (rows df)))).
  assert (Hc1 : columns df1 = columns df) by reflexivity.
  assert (Hr1 : rows df1 = next_song_rows df).
  { unfold df1. rewrite getitem_mask_rows. unfold next_song_rows.
    apply filter_ext. intros r. now rewrite (column_index_field _ _ _ _ Hp). }
  destruct (getitem df1 "ts") as [ts0|e] eqn:Hts0;
    [|left; eexists; reflexivity].
  unfold getitem in Hts0. rewrite Hc1, Hr1 in Hts0.
  destruct (column_index "ts" (columns df)) as [i|] eqn:Hi; [|discriminate].
  injection Hts0 as <-.
  assert (Hts : map (cell i) (next_song_rows df)
                = map (fun r => field (columns df) r "ts") (next_song_rows df)).
  { apply map_ext. intros r. now rewrite (column_index_field _ _ _ _ Hi). }
  rewrite Hts. rewrite bind_lift.
  destruct (to_datetime (map (fun r => field (columns df) r "ts") (next_song_rows df)))
    as [ts|e] eqn:Hconv; [|left; eexists; reflexivity].
  right. exists i, ts. split; [reflexivity|]. split; [reflexivity|].
  assert (Hdf2 : setitem df1 "ts" ts
                 = mkDataFrame (columns df) (with_timestamps i (next_song_rows df) ts)).
  { unfold setitem. rewrite Hc1, Hi, Hr1. reflexivity. }
  rewrite Hdf2. cbn [columns rows].
  assert (Hget : getitem (mkDataFrame (columns df)
                            (with_timestamps i (next_song_rows df) ts)) "ts"
                 = Ok ts).
  { unfold getitem. cbn [columns rows]. rewrite Hi. unfold with_timestamps.
    rewrite map_cell_set_cell; [reflexivity|].
    rewrite (to_datetime_length _ _ Hconv). apply length_map. }
  rewrite bind_lift, Hget, time_frame_rows. reflexivity.
Qed.

Lemma bind_ok_inv {A B : Type} (m : M A) (k : A -> M B) c b :
  outcome (bind m k c) = Ok b ->
  exists a,
    outcome (m c) = Ok a
    /\ outcome (k a (final (m c))) = Ok b
    /\ events (bind m k c) = events (m c) ++ events (k a (final (m c))).
Proof.
  rewrite bind_run. destruct (outcome (m c)) as [a|e]; [|discriminate].
  rewrite outcome_run, events_run. intros H. now exists a.
Qed.

Lemma map_combine_fst {A B C : Type} (f : A -> C) (l : list A) (l' : list B) :
  List.length l' = List.length l ->
  map (fun x => f (fst x)) (combine l l') = map f l.
Proof.
  revert l'. induction l as [|x l IH]; intros [|y l']; simpl;
    try discriminate; [reflexivity|].
  intros [= H]. now rewrite IH.
Qed.

Lemma combine_map_l {A B C : Type} (h : A -> C) (l : list A) (l' : list B) :
  combine (map h l) l' = map (fun x => (h (fst x), snd x)) (combine l l').
Proof.
  revert l'. induction l as [|x l IH]; intros [|y l']; simpl; auto.
  now rewrite IH.
Qed.

Lemma songplay_events_converted cols i r t ids :
  column_index "ts" cols = Some i ->
  songplay_events cols (set_cell i t r) (field cols (set_cell i t r) "ts") ids
  = songplay_events cols r t ids.
Proof.
  intros Hi. unfold songplay_events, songplay_record.
  rewrite (field_set_cell_same _ _ _ _ _ Hi).
  rewrite !(field_set_cell_other _ _ _ _ _ _ Hi) by discriminate.
  reflexivity.
Qed.

(** A run of [process_log_file] that ends well, in full: the time rows of
    all NextSong events, then their user rows, then lookup and songplay row
    event by event. *)
Lemma load_log_frame_ok df c :
  outcome (load_log_frame df c) = Ok tt ->
  exists ts idss,
    to_datetime (map (fun r => field (columns df) r "ts") (next_song_rows df)) = Ok ts
    /\ List.length idss = List.length (next_song_rows df)
    /\ events (load_log_frame df c)
       = map (fun t => EExecute time_table_insert (time_record t)) ts
         ++ map (fun r => EExecute user_table_insert
                            (map (field (columns df) r) user_columns))
              (next_song_rows df)
         ++ List.concat
              (map (fun x => songplay_events (columns df) (fst (fst x)) (snd (fst x)) (snd x))
                 (combine (combine (next_song_rows df) ts) idss)).
Proof.
  destruct (load_log_frame_prepared df c)
    as [(e & H) | (i & ts & Hi & Hconv & H)]; rewrite H; clear H.
  - rewrite outcome_run. discriminate.
  - intros Hok.
    assert (Hlen : List.length ts = List.length (next_song_rows df)).
    { rewrite (to_datetime_length _ _ Hconv). apply length_map. }
    apply bind_ok_inv in Hok as ([] & Ht & Hok & ->).
    destruct (for_each_execute time_table_insert (fun row => row)
                (map time_record ts) c) as (t1 & t2 & Et & Evt & Hokt & _).
    specialize (Hokt Ht). subst t2. rewrite app_nil_r in Et. subst t1.
    rewrite Evt, map_map. clear Evt.
    set (c1 := final (for_each (map time_record ts)
                        (fun row => cur_execute time_table_insert row) c)) in *.
    rewrite bind_lift in Hok |- *.
    destruct (getitem_list _ user_columns) as [user_df|e] eqn:Hu;
      [|rewrite outcome_run in Hok; discriminate].
    apply getitem_list_rows in Hu as (ixs & Hix & ->).
    cbn [columns rows] in *.
    apply bind_ok_inv in Hok as ([] & Hu & Hok & ->).
    match type of Hu with
    | outcome (for_each ?l _ ?c) = _ =>
        destruct (for_each_execute user_table_insert (fun row => row) l c)
          as (u1 & u2 & Eu & Evu & Hoku & _)
    end.
    specialize (Hoku Hu). subst u2. rewrite app_nil_r in Eu. subst u1.
    rewrite Evu, map_map. clear Evu.
    destruct (songplay_loop_ok _ _ _ Hok) as (idss & Hl & ->).
    exists ts, idss. split; [exact Hconv|]. split.
    + rewrite Hl. unfold with_timestamps.
      now rewrite length_map, length_combine, Hlen, Nat.min_id.
    + f_equal. f_equal.
      * unfold with_timestamps. rewrite map_map.
        rewrite <- (map_combine_fst
                      (fun r => EExecute user_table_insert
                                  (map (field (columns df) r) user_columns))
                      (next_song_rows df) ts Hlen).
        apply map_ext. intros [r t]. cbn [fst snd]. f_equal.
        rewrite (column_indices_ok _ _ _ Hix).
        unfold user_columns. cbn [map].
        rewrite !(field_set_cell_other _ _ _ _ _ _ Hi) by discriminate.
        reflexivity.
      * f_equal. unfold with_timestamps.
        rewrite combine_map_l, map_map.
        apply map_ext. intros [[r t] ids]. cbn [fst snd].
        now apply songplay_events_converted.
Qed.

(** Any run of [process_log_file], also one that fails: time inserts, then
    user inserts, then lookups and songplay inserts; a later phase starts
    only when the one before it is complete. *)
Lemma load_log_frame_phases df c :
  exists tl ul sl,
    events (load_log_frame df c) = tl ++ ul ++ sl
    /\ Forall (fun e => is_execute [time_table_insert] e = true) tl
    /\ Forall (fun e => is_execute [user_table_insert] e = true) ul
    /\ Forall (fun e => is_execute [song_select; songplay_table_insert] e = true) sl
    /\ (ul ++ sl <> [] -> List.length tl = List.length (next_song_rows df))
    /\ (sl <> [] -> List.length ul = List.length (next_song_rows df)).
Proof.
  assert (Hq : forall q (l : list (list value)),
             Forall (fun e => is_execute [q] e = true)
               (map (fun x => EExecute q x) l)).
  { intros q l. apply Forall_forall. intros e He.
    apply in_map_iff in He as (x & <- & _). now destruct q. }
  destruct (load_log_frame_prepared df c)
    as [(e & H) | (i & ts & Hi & Hconv & H)]; rewrite H; clear H.
  - exists [], [], []. rewrite events_run. repeat split; auto; simpl; congruence.
  - assert (Hlen : List.length ts = List.length (next_song_rows df)).
    { rewrite (to_datetime_length _ _ Hconv). apply length_map. }
    destruct (for_each_execute time_table_insert (fun row => row)
                (map time_record ts) c) as (t1 & t2 & Et & Evt & Hokt & Hkot).
    rewrite bind_run, Evt.
    destruct (outcome (for_each (map time_record ts) _ c)) as [[]|e].
    2:{ exists (map (fun x => EExecute time_table_insert x) t1), [], [].
        rewrite events_run, !app_nil_r. repeat split; auto; simpl; congruence. }
    specialize (Hokt eq_refl). subst t2. rewrite app_nil_r in Et. subst t1.
    assert (Htl : List.length (map (fun x => EExecute time_table_insert x)
                                 (map time_record ts))
                  = List.length (next_song_rows df))
      by now rewrite !length_map.
    rewrite events_run, bind_lift.
    destruct (getitem_list _ user_columns) as [user_df|e] eqn:Hu.
    2:{ exists (map (fun x => EExecute time_table_insert x) (map time_record ts)), [], [].
        rewrite events_run, !app_nil_r. repeat split; auto; simpl; congruence. }
    apply getitem_list_rows in Hu as (ixs & Hix & ->). cbn [columns rows].
    match goal with
    | |- context [bind (for_each ?l _) _ ?c1] =>
        destruct (for_each_execute user_table_insert (fun row => row) l c1)
          as (u1 & u2 & Eu & Evu & Hoku & Hkou);
        rewrite bind_run, Evu;
        destruct (outcome (for_each l _ c1)) as [[]|e]
    end.
    2:{ exists (map (fun x => EExecute time_table_insert x) (map time_record ts)),
          (map (fun x => EExecute user_table_insert x) u1), [].
        rewrite events_run, !app_nil_r. repeat split; auto; simpl; congruence. }
    specialize (Hoku eq_refl). subst u2. rewrite app_nil_r in Eu. subst u1.
    rewrite events_run.
    eexists _, _, _. split; [reflexivity|].
    repeat split; auto using songplay_loop_events.
    intros _. unfold with_timestamps.
    now rewrite !length_map, length_combine, Hlen, Nat.min_id.
Qed.

End LogFile.

(** ** Candidate rows *)

Section Executed.

Lemma executed_app q l1 l2 :
  executed q (l1 ++ l2) = executed q l1 ++ executed q l2.
Proof.
  induction l1 as [|[q' ps| |line] l1 IH]; simpl; auto.
  destruct (query_eqb q q'); simpl; now rewrite IH.
Qed.

Lemma query_eqb_refl q : query_eqb q q = true.
Proof. now destruct q. Qed.

Lemma executed_map_same {A : Type} q (g : A -> list value) l :
  executed q (map (fun x => EExecute q (g x)) l) = map g l.
Proof.
  induction l as [|x l IH]; simpl; [reflexivity|].
  now rewrite query_eqb_refl, IH.
Qed.

Lemma executed_map_other {A : Type} q q' (g : A -> list value) l :
  query_eqb q q' = false ->
  executed q (map (fun x => EExecute q' (g x)) l) = [].
Proof.
  intros H. induction l as [|x l IH]; simpl; [reflexivity|].
  now rewrite H.
Qed.

Lemma executed_songplay_events {A : Type} cols (r : A -> list value) t ids l :
  executed songplay_table_insert
    (List.concat (map (fun x => songplay_events cols (r x) (t x) (ids x)) l))
  = map (fun x => songplay_record cols (r x) (t x) (ids x)) l.
Proof.
  induction l as [|x l IH]; simpl; [reflexivity|]. now rewrite IH.
Qed.

Lemma executed_songplay_events_other {A : Type} q cols (r : A -> list value) t ids l :
  query_eqb q song_select = false -> query_eqb q songplay_table_insert = false ->
  executed q
    (List.concat (map (fun x => songplay_events cols (r x) (t x) (ids x)) l))
  = [].
Proof.
  intros H1 H2. induction l as [|x l IH]; simpl; [reflexivity|].
  now rewrite H1, H2.
Qed.

Lemma executed_forall q (P : list value -> Prop) evs :
  Forall (fun e => match e with
                   | EExecute q' ps => query_eqb q q' = true -> P ps
                   | _ => True
                   end) evs ->
  Forall P (executed q evs).
Proof.
  induction 1 as [|[q' ps| |line] evs H _ IH]; simpl; auto.
  destruct (query_eqb q q'); auto.
Qed.

End Executed.

Lemma process_log_file_read fs p df c :
  read_json fs p = Ok df -> process_log_file fs p c = load_log_frame df c.
Proof. intros H. unfold process_log_file. now rewrite bind_lift, H. Qed.

Lemma process_song_file_read fs p df c :
  read_json fs p = Ok df -> process_song_file fs p c = load_song_frame df c.
Proof. intros H. unfold process_song_file. now rewrite bind_lift, H. Qed.

Lemma filter_idem {A : Type} (f : A -> bool) (l : list A) :
  filter f (filter f l) = filter f l.
Proof.
  induction l as [|x l IH]; simpl; [reflexivity|].
  destruct (f x) eqn:E; simpl; [now rewrite E, IH | assumption].
Qed.

(** The events of other pages can be left out of the frame: the run is the
    same. *)
Lemma load_log_frame_only_next_song df c :
  load_log_frame (only_next_song df) c = load_log_frame df c.
Proof.
  unfold load_log_frame. rewrite !bind_lift.
  destruct (column_index "page" (columns df)) as [ip|] eqn:Hp.
  2:{ assert (G : forall d, columns d = columns df ->
                    getitem d "page" = Raise (KeyError "page")).
      { intros d Hd. unfold getitem. now rewrite Hd, Hp. }
      now rewrite !G. }
  assert (G : forall d, columns d = columns df ->
                getitem d "page" = Ok (map (cell ip) (rows d))).
  { intros d Hd. unfold getitem. now rewrite Hd, Hp. }
  rewrite !G by reflexivity. cbv zeta. unfold only_next_song. cbn [rows].
  assert (E : getitem_mask (mkDataFrame (columns df) (next_song_rows df))
                (map (eq_str "NextSong") (map (cell ip) (next_song_rows df)))
              = getitem_mask df
                  (map (eq_str "NextSong") (map (cell ip) (rows df)))).
  { pose proof (getitem_mask_rows df ip "NextSong") as H1.
    pose proof (getitem_mask_rows (mkDataFrame (columns df) (next_song_rows df))
                  ip "NextSong") as H2.
    cbn [rows] in H2.
    assert (Hf : next_song_rows df
                 = filter (fun r => eq_str "NextSong" (cell ip r)) (rows df)).
    { unfold next_song_rows. apply filter_ext. intros r.
      now rewrite (column_index_field _ _ _ _ Hp). }
    assert (Hidem : filter (fun r => eq_str "NextSong" (cell ip r)) (next_song_rows df)
                    = next_song_rows df).
    { rewrite Hf. apply filter_idem. }
    rewrite Hidem in H2. rewrite <- Hf in H1.
    unfold getitem_mask in *. cbn [columns rows] in *. now rewrite H1, H2. }
  rewrite E. reflexivity.
Qed.

(* ================================================================= *)
(** * The claims about [process_log_file] *)

(** C1.  A run of [process_log_file] that ends well has executed the time
    insert, the user insert and the songplay insert each exactly once per
    event of the file whose page is the string ["NextSong"]; and the events
    of other pages contribute nothing: the file without them is processed
    in the very same way. *)
Theorem log_file_row_counts fs p df c :
  read_json fs p = Ok df ->
  outcome (process_log_file fs p c) = Ok tt ->
  List.length (executed time_table_insert (events (process_log_file fs p c)))
  = List.length (next_song_rows df)
  /\ List.length (executed user_table_insert (events (process_log_file fs p c)))
     = List.length (next_song_rows df)
  /\ List.length (executed songplay_table_insert (events (process_log_file fs p c)))
     = List.length (next_song_rows df)
  /\ forall fs' p',
       read_json fs' p' = Ok (only_next_song df) ->
       process_log_file fs' p' c = process_log_file fs p c.
Proof.
  intros Hread Hok.
  rewrite (process_log_file_read _ _ _ _ Hread) in *.
  destruct (load_log_frame_ok df c Hok) as (ts & idss & Hconv & Hl & ->).
  assert (Hlen : List.length ts = List.length (next_song_rows df)).
  { rewrite (to_datetime_length _ _ Hconv). apply length_map. }
  assert (Hcomb : List.length (combine (combine (next_song_rows df) ts) idss)
                  = List.length (next_song_rows df)).
  { now rewrite !length_combine, Hlen, Hl, !Nat.min_id. }
  rewrite !executed_app.
  repeat split.
  - rewrite executed_map_same, executed_map_other by reflexivity.
    rewrite executed_songplay_events_other by reflexivity.
    cbn [app]. now rewrite ?app_nil_r, length_map.
  - rewrite executed_map_other, executed_map_same by reflexivity.
    rewrite executed_songplay_events_other by reflexivity.
    cbn [app]. now rewrite ?app_nil_r, length_map.
  - rewrite !executed_map_other by reflexivity.
    rewrite executed_songplay_events. cbn [app]. now rewrite length_map.
  - intros fs' p' Hread'.
    rewrite (process_log_file_read _ _ _ _ Hread').
    apply load_log_frame_only_next_song.
Qed.

Lemma log_file_row_counts_witness :
  List.length (executed time_table_insert
                 (events (process_log_file Samples.disk
                            (Rel ["data"; "log_data"; "day.json"])
                            (connect Samples.catalog)))) = 2%nat
  /\ List.length (executed user_table_insert
                    (events (process_log_file Samples.disk
                               (Rel ["data"; "log_data"; "day.json"])
                               (connect Samples.catalog)))) = 2%nat
  /\ List.length (executed songplay_table_insert
                    (events (process_log_file Samples.disk
                               (Rel ["data"; "log_data"; "day.json"])
                               (connect Samples.catalog)))) = 2%nat
  /\ process_log_file Samples.disk (Abs ["home"; "data"; "log_data"; "plays.json"])
       (connect Samples.catalog)
     = process_log_file Samples.disk (Rel ["data"; "log_data"; "day.json"])
         (connect Samples.catalog).
Proof.
  destruct (log_file_row_counts Samples.disk (Rel ["data"; "log_data"; "day.json"])
              Samples.day_log (connect Samples.catalog) eq_refl eq_refl)
    as (Ht & Hu & Hs & Hsame).
  split; [exact Ht | split; [exact Hu | split; [exact Hs |]]].
  apply Hsame. reflexivity.
Defined.

Section Invariants.

Lemma hoare_execute P q params (Q : event -> Prop) :
  (forall c st rs, P c -> execute_on q params (working c) = Ok (st, rs) ->
                   P (mkConn (durable c) st rs)) ->
  Q (EExecute q params) ->
  hoare P (cur_execute q params) (fun _ => True) Q.
Proof.
  intros HP HQ c Hc. unfold cur_execute.
  destruct (execute_on q params (working c)) as [[st rs]|e] eqn:E;
    rewrite final_run, events_run; repeat split; eauto.
Qed.

Lemma hoare_commit P (Q : event -> Prop) :
  (forall c, P c -> P (mkConn (working c) (working c) (fetched c))) ->
  Q ECommit -> hoare P conn_commit (fun _ => True) Q.
Proof.
  intros HP HQ c Hc. unfold conn_commit.
  rewrite final_run, events_run. repeat split; auto.
Qed.

Lemma hoare_execute_keys q params (Q : event -> Prop) :
  Q (EExecute q params) ->
  hoare (fun c => song_keys_present (working c) = true)
    (cur_execute q params) (fun _ => True) Q.
Proof.
  intros HQ. apply hoare_execute; [|exact HQ].
  intros c st rs Hc E. simpl. eapply execute_on_song_keys; eassumption.
Qed.

(** The lookup returns a pair that is whole or missing as a whole. *)
Lemma hoare_lookup_ids song artist length (Q : event -> Prop) :
  Q (EExecute song_select [song; artist; length]) ->
  hoare (fun c => song_keys_present (working c) = true)
    (lookup_ids song artist length)
    (fun ids => is_null (fst ids) = is_null (snd ids)) Q.
Proof.
  intros HQ c Hc. rewrite lookup_ids_run, final_run, events_run, outcome_run.
  repeat split; auto.
  intros ids [= <-].
  destruct (select_song (working c) song artist length) as [|r rs] eqn:E;
    [reflexivity|].
  destruct (select_song_ids (working c) song artist length r Hc) as [H1 H2].
  { rewrite E. now left. }
  simpl. congruence.
Qed.

Ltac hoare_lifts :=
  repeat (apply hoare_bind with (R := fun _ : _ => True);
          [apply hoare_lift; trivial | intros ? _; cbv zeta]).

Lemma hoare_insert_songplay cols row :
  hoare (fun c => song_keys_present (working c) = true)
    (insert_songplay cols row) (fun _ => True) songplay_ids_paired.
Proof.
  unfold insert_songplay. hoare_lifts.
  eapply hoare_bind.
  - apply hoare_lookup_ids. simpl. discriminate.
  - intros ids Hids. hoare_lifts.
    apply hoare_execute_keys. intros _.
    unfold ids_paired. cbn [nth]. rewrite Hids. apply Bool.eqb_reflx.
Qed.

Lemma hoare_load_log_frame df :
  hoare (fun c => song_keys_present (working c) = true)
    (load_log_frame df) (fun _ => True) songplay_ids_paired.
Proof.
  unfold load_log_frame. hoare_lifts.
  apply hoare_bind with (R := fun _ => True).
  { apply hoare_for_each. intros row _. apply hoare_execute_keys.
    simpl. discriminate. }
  intros _ _. hoare_lifts.
  apply hoare_bind with (R := fun _ => True).
  { apply hoare_for_each. intros row _. apply hoare_execute_keys.
    simpl. discriminate. }
  intros _ _.
  apply hoare_for_each. intros row _. apply hoare_insert_songplay.
Qed.

Lemma hoare_process_song_file_keys fs p :
  hoare (fun c => song_keys_present (working c) = true)
    (process_song_file fs p) (fun _ => True) songplay_ids_paired.
Proof.
  unfold process_song_file, load_song_frame. hoare_lifts.
  apply hoare_bind with (R := fun _ => True);
    [apply hoare_execute_keys; simpl; discriminate | intros _ _].
  hoare_lifts. apply hoare_execute_keys. simpl. discriminate.
Qed.

Lemma hoare_process_log_file_keys fs p :
  hoare (fun c => song_keys_present (working c) = true)
    (process_log_file fs p) (fun _ => True) songplay_ids_paired.
Proof.
  unfold process_log_file.
  apply hoare_bind with (R := fun _ => True); [apply hoare_lift; trivial|].
  intros df _. apply hoare_load_log_frame.
Qed.

(** Whatever the handler keeps and causes, a whole run of [process_data]
    with it keeps and causes too. *)
Lemma hoare_process_data P (Q : event -> Prop) fs filepath func :
  (forall c, P c -> P (committed c)) ->
  Q ECommit -> (forall line, Q (EPrint line)) ->
  (forall p, hoare P (func fs p) (fun _ => True) Q) ->
  hoare P (process_data fs filepath func) (fun _ => True) Q.
Proof.
  intros Hcommit Qcommit Qprint Hfunc.
  unfold process_data, process_files. cbv zeta.
  apply hoare_bind with (R := fun _ => True); [now apply hoare_print|].
  intros _ _. apply hoare_for_each. intros [i f] _.
  apply hoare_bind with (R := fun _ => True); [apply Hfunc|].
  intros _ _.
  apply hoare_bind with (R := fun _ => True); [now apply hoare_commit|].
  intros _ _. now apply hoare_print.
Qed.

Lemma hoare_main fs :
  hoare (fun c => song_keys_present (working c) = true)
    (main fs) (fun _ => True) songplay_ids_paired.
Proof.
  unfold main. apply hoare_bind with (R := fun _ => True).
  - apply hoare_process_data; simpl; auto.
    apply hoare_process_song_file_keys.
  - intros _ _. apply hoare_process_data; simpl; auto.
    apply hoare_process_log_file_keys.
Qed.

End Invariants.

Lemma paired_events_rows evs :
  Forall songplay_ids_paired evs ->
  Forall (fun params => ids_paired params = true)
    (executed songplay_table_insert evs).
Proof.
  intros H. apply executed_forall.
  eapply Forall_impl; [|exact H].
  intros [q ps| |line]; simpl; auto.
Qed.

(** C3.  On a store whose songs all have their identifier -- the empty
    store is one, and the pipeline keeps it so -- every songplay row that
    [process_log_file] composes, also in a run that fails later, has its
    song identifier and its artist identifier both null or both not null.
    So has every songplay row of a whole run of [main]. *)
Theorem songplay_ids_both_or_neither fs c :
  song_keys_present (working c) = true ->
  (forall p,
      Forall (fun params => ids_paired params = true)
        (executed songplay_table_insert (events (process_log_file fs p c))))
  /\ Forall (fun params => ids_paired params = true)
       (executed songplay_table_insert (events (main fs c))).
Proof.
  intros Hc. split.
  - intros p. apply paired_events_rows.
    now destruct (hoare_process_log_file_keys fs p c Hc) as (_ & H & _).
  - apply paired_events_rows.
    now destruct (hoare_main fs c Hc) as (_ & H & _).
Qed.

Lemma songplay_ids_both_or_neither_witness :
  (forall p,
      Forall (fun params => ids_paired params = true)
        (executed songplay_table_insert
           (events (process_log_file Samples.disk p (connect Samples.catalog)))))
  /\ Forall (fun params => ids_paired params = true)
       (executed songplay_table_insert
          (events (main Samples.disk (connect Samples.catalog)))).
Proof.
  exact (songplay_ids_both_or_neither Samples.disk (connect Samples.catalog)
           eq_refl).
Defined.

(** C6.  In a run of [process_log_file] that ends well the [ts] of every
    NextSong event is converted from epoch milliseconds to a timestamp, and
    the time rows inserted are, event by event, that timestamp with its
    hour, day, ISO week, month, year and weekday.  The millisecond count of
    2023-03-15 13:45:00 UTC gives hour 13, day 15, week 11, month 3, year
    2023 and weekday 2, Wednesday where Monday is 0. *)
Theorem time_rows_of_events fs p df c :
  read_json fs p = Ok df ->
  outcome (process_log_file fs p c) = Ok tt ->
  (exists ts,
     to_datetime (map (fun r => field (columns df) r "ts") (next_song_rows df)) = Ok ts
     /\ executed time_table_insert (events (process_log_file fs p c))
        = map time_record ts)
  /\ (forall ms,
        time_record (VTimestamp ms)
        = [VTimestamp ms; VInt (Calendar.hour ms); VInt (Calendar.day ms);
           VInt (Calendar.week ms); VInt (Calendar.month ms);
           VInt (Calendar.year ms); VInt (Calendar.weekday ms)])
  /\ Calendar.days_of_civil 2023 3 15 * Calendar.ms_per_day
     + 13 * Calendar.ms_per_hour + 45 * 60000 = 1678887900000
  /\ to_datetime [VInt 1678887900000] = Ok [VTimestamp 1678887900000]
  /\ time_record (VTimestamp 1678887900000)
     = [VTimestamp 1678887900000; VInt 13; VInt 15; VInt 11; VInt 3; VInt 2023; VInt 2].
Proof.
  intros Hread Hok.
  rewrite (process_log_file_read _ _ _ _ Hread) in *.
  destruct (load_log_frame_ok df c Hok) as (ts & idss & Hconv & Hl & ->).
  split; [|repeat split].
  exists ts. split; [exact Hconv|].
  rewrite !executed_app.
  rewrite executed_map_same, executed_map_other by reflexivity.
  rewrite executed_songplay_events_other by reflexivity.
  now rewrite !app_nil_r.
Qed.

Lemma time_rows_of_events_witness :
  executed time_table_insert
    (events (process_log_file Samples.disk (Rel ["data"; "log_data"; "day.json"])
               (connect Samples.catalog)))
  = [[VTimestamp 1678887900000; VInt 13; VInt 15; VInt 11; VInt 3; VInt 2023; VInt 2];
     [VTimestamp 1678887902000; VInt 13; VInt 15; VInt 11; VInt 3; VInt 2023; VInt 2]].
Proof.
  destruct (time_rows_of_events Samples.disk (Rel ["data"; "log_data"; "day.json"])
              Samples.day_log (connect Samples.catalog) eq_refl eq_refl)
    as ((ts & Hconv & Hrows) & _).
  rewrite Hrows. vm_compute in Hconv. injection Hconv as <-. reflexivity.
Defined.

Lemma nth_error_combine {A B : Type} (l : list A) (l' : list B) i a b :
  nth_error l i = Some a -> nth_error l' i = Some b ->
  nth_error (combine l l') i = Some (a, b).
Proof.
  revert l l'. induction i as [|i IH]; intros [|x l] [|y l']; simpl;
    try discriminate.
  - now intros [= ->] [= ->].
  - apply IH.
Qed.

Lemma nth_error_some_lt {A : Type} (l : list A) i :
  (i < List.length l)%nat -> exists x, nth_error l i = Some x.
Proof.
  intros H. destruct (nth_error l i) as [x|] eqn:E; [now exists x|].
  apply nth_error_None in E. lia.
Qed.

(** C7.  A run of [process_log_file] that ends well has inserted exactly
    one songplay row per NextSong event, in the order of the file: the row
    of each event is made of its converted timestamp, its fields and the
    identifiers looked up for it.  And the time row of an event is inserted
    before the songplay row of that event. *)
Theorem songplay_rows_in_file_order fs p df c :
  read_json fs p = Ok df ->
  outcome (process_log_file fs p c) = Ok tt ->
  exists ts idss,
    to_datetime (map (fun r => field (columns df) r "ts") (next_song_rows df)) = Ok ts
    /\ List.length ts = List.length (next_song_rows df)
    /\ List.length idss = List.length (next_song_rows df)
    /\ executed songplay_table_insert (events (process_log_file fs p c))
       = map (fun x => songplay_record (columns df) (fst (fst x)) (snd (fst x)) (snd x))
           (combine (combine (next_song_rows df) ts) idss)
    /\ forall i r t,
         nth_error (next_song_rows df) i = Some r ->
         nth_error ts i = Some t ->
         exists ids before between after,
           nth_error idss i = Some ids
           /\ events (process_log_file fs p c)
              = before
                ++ EExecute time_table_insert (time_record t)
                   :: between
                ++ EExecute songplay_table_insert (songplay_record (columns df) r t ids)
                   :: after.
Proof.
  intros Hread Hok.
  rewrite (process_log_file_read _ _ _ _ Hread) in *.
  destruct (load_log_frame_ok df c Hok) as (ts & idss & Hconv & Hl & ->).
  assert (Hlen : List.length ts = List.length (next_song_rows df)).
  { rewrite (to_datetime_length _ _ Hconv). apply length_map. }
  exists ts, idss. repeat (split; [assumption|]). split.
  - rewrite !executed_app, !executed_map_other by reflexivity.
    now rewrite executed_songplay_events.
  - intros i r t Hr Ht.
    destruct (nth_error_some_lt idss i) as [ids Hids].
    { rewrite Hl. apply nth_error_Some. congruence. }
    exists ids.
    destruct (nth_error_split _ _ Ht) as (ts1 & ts2 & -> & _).
    pose proof (nth_error_combine _ _ _ _ _ (nth_error_combine _ _ _ _ _ Hr Ht) Hids) as Hx.
    destruct (nth_error_split _ _ Hx) as (x1 & x2 & Ex & _).
    rewrite Ex.
    exists (map (fun t => EExecute time_table_insert (time_record t)) ts1),
      (map (fun t => EExecute time_table_insert (time_record t)) ts2
       ++ map (fun r => EExecute user_table_insert
                          (map (field (columns df) r) user_columns))
            (next_song_rows df)
       ++ List.concat
            (map (fun x => songplay_events (columns df) (fst (fst x)) (snd (fst x)) (snd x))
               x1)
       ++ [EExecute song_select
             [field (columns df) r "song"; field (columns df) r "artist";
              field (columns df) r "length"]]),
      (List.concat
         (map (fun x => songplay_events (columns df) (fst (fst x)) (snd (fst x)) (snd x))
            x2)).
    split; [exact Hids|].
    rewrite !map_app, concat_app.
    cbn [map List.concat fst snd songplay_events].
    rewrite <- !app_assoc. cbn [app]. reflexivity.
Qed.

Lemma songplay_rows_in_file_order_witness :
  exists ts idss,
    to_datetime (map (fun r => field (columns Samples.day_log) r "ts")
                   (next_song_rows Samples.day_log)) = Ok ts
    /\ List.length ts = List.length (next_song_rows Samples.day_log)
    /\ List.length idss = List.length (next_song_rows Samples.day_log)
    /\ executed songplay_table_insert
         (events (process_log_file Samples.disk (Rel ["data"; "log_data"; "day.json"])
                    (connect Samples.catalog)))
       = map (fun x => songplay_record (columns Samples.day_log)
                         (fst (fst x)) (snd (fst x)) (snd x))
           (combine (combine (next_song_rows Samples.day_log) ts) idss)
    /\ forall i r t,
         nth_error (next_song_rows Samples.day_log) i = Some r ->
         nth_error ts i = Some t ->
         exists ids before between after,
           nth_error idss i = Some ids
           /\ events (process_log_file Samples.disk
                        (Rel ["data"; "log_data"; "day.json"])
                        (connect Samples.catalog))
              = before
                ++ EExecute time_table_insert (time_record t)
                   :: between
                ++ EExecute songplay_table_insert
                     (songplay_record (columns Samples.day_log) r t ids)
                   :: after.
Proof.
  exact (songplay_rows_in_file_order Samples.disk
           (Rel ["data"; "log_data"; "day.json"])
           Samples.day_log (connect Samples.catalog) eq_refl eq_refl).
Defined.

(** C10.  Within one file [process_log_file] works in three phases: its
    events are time inserts, then user inserts, then lookups and songplay
    inserts.  The first user insert comes when the time rows of all
    NextSong events are in, and the first lookup when their user rows are
    in too. *)
Theorem log_file_phases fs p df c :
  read_json fs p = Ok df ->
  exists time_phase user_phase songplay_phase,
    events (process_log_file fs p c) = time_phase ++ user_phase ++ songplay_phase
    /\ Forall (fun e => is_execute [time_table_insert] e = true) time_phase
    /\ Forall (fun e => is_execute [user_table_insert] e = true) user_phase
    /\ Forall (fun e => is_execute [song_select; songplay_table_insert] e = true)
         songplay_phase
    /\ (user_phase ++ songplay_phase <> [] ->
        List.length time_phase = List.length (next_song_rows df))
    /\ (songplay_phase <> [] ->
        List.length user_phase = List.length (next_song_rows df)).
Proof.
  intros Hread. rewrite (process_log_file_read _ _ _ _ Hread).
  apply load_log_frame_phases.
Qed.

Lemma log_file_phases_witness :
  exists time_phase user_phase songplay_phase,
    events (process_log_file Samples.disk (Rel ["data"; "log_data"; "day.json"])
              (connect Samples.catalog))
    = time_phase ++ user_phase ++ songplay_phase
    /\ Forall (fun e => is_execute [time_table_insert] e = true) time_phase
    /\ Forall (fun e => is_execute [user_table_insert] e = true) user_phase
    /\ Forall (fun e => is_execute [song_select; songplay_table_insert] e = true)
         songplay_phase
    /\ (user_phase ++ songplay_phase <> [] ->
        List.length time_phase = List.length (next_song_rows Samples.day_log))
    /\ (songplay_phase <> [] ->
        List.length user_phase = List.length (next_song_rows Samples.day_log)).
Proof.
  exact (log_file_phases Samples.disk (Rel ["data"; "log_data"; "day.json"])
           Samples.day_log (connect Samples.catalog) eq_refl).
Defined.

(* ================================================================= *)
(** * The claims about the catalog *)

(** C2.  The lookup of an event's song title, artist name and duration
    returns the identifiers of the catalog row that matches when exactly one
    does, and a pair of nulls when none does.  With the song S1 "Fake Song"
    of 200.0 seconds by the artist A1 "Fake Artist" in the catalog, the
    event (Fake Song, Fake Artist, 200.0) gets (S1, A1) and the event
    (Unknown, Nobody, 1.0) gets (null, null) -- from the lookup alone, and in
    the songplay rows of a file with these two events. *)
Theorem resolver_lookup c song artist length :
  (forall s a,
      catalog_matches (working c) song artist length = [(s, a)] ->
      outcome (lookup_ids song artist length c) = Ok (song_id s, artist_id a))
  /\ (catalog_matches (working c) song artist length = [] ->
      outcome (lookup_ids song artist length c) = Ok (VNull, VNull))
  /\ (forall year location latitude longitude,
        let catalog :=
          mkStore
            [mkSong (VStr "S1") (VStr "Fake Song") (VStr "A1") year Samples.f200]
            [mkArtist (VStr "A1") (VStr "Fake Artist") location latitude longitude]
            [] [] [] in
        outcome (lookup_ids (VStr "Fake Song") (VStr "Fake Artist") Samples.f200
                   (connect catalog))
        = Ok (VStr "S1", VStr "A1")
        /\ outcome (lookup_ids (VStr "Unknown") (VStr "Nobody") Samples.f1
                      (connect catalog))
           = Ok (VNull, VNull))
  /\ map (fun params => (nth 3 params VNull, nth 4 params VNull))
       (executed songplay_table_insert
          (events (process_log_file Samples.disk (Rel ["data"; "log_data"; "day.json"])
                     (connect Samples.catalog))))
     = [(VStr "S1", VStr "A1"); (VNull, VNull)].
Proof.
  rewrite lookup_ids_run, outcome_run. unfold select_song.
  split; [|split; [|split]].
  - intros s a ->. reflexivity.
  - intros ->. reflexivity.
  - intros year location latitude longitude. cbv zeta.
    rewrite !lookup_ids_run, !outcome_run. split; reflexivity.
  - reflexivity.
Qed.

Lemma resolver_lookup_witness :
  outcome (lookup_ids (VStr "Fake Song") (VStr "Fake Artist") Samples.f200
             (connect Samples.catalog))
  = Ok (VStr "S1", VStr "A1")
  /\ outcome (lookup_ids (VStr "Unknown") (VStr "Nobody") Samples.f1
                (connect Samples.catalog))
     = Ok (VNull, VNull).
Proof.
  split.
  - exact (proj1 (resolver_lookup (connect Samples.catalog)
                    (VStr "Fake Song") (VStr "Fake Artist") Samples.f200)
             _ _ eq_refl).
  - exact (proj1 (proj2 (resolver_lookup (connect Samples.catalog)
                           (VStr "Unknown") (VStr "Nobody") Samples.f1))
             eq_refl).
Defined.

(** [process_song_file] looks at the labels of the frame and at its first
    row, and at nothing else. *)
Lemma load_song_frame_run df c :
  load_song_frame df c
  = match column_indices song_columns (columns df), rows df with
    | Raise e, _ => (Raise e, c, [])
    | Ok _, [] => (Raise IndexError, c, [])
    | Ok ixs, r :: _ =>
        (cur_execute song_table_insert (map (fun i => cell i r) ixs) ;;
         match column_indices artist_columns (columns df) with
         | Raise e => lift (Raise e)
         | Ok jxs => cur_execute artist_table_insert (map (fun i => cell i r) jxs)
         end) c
    end.
Proof.
  unfold load_song_frame, getitem_list. rewrite bind_lift.
  destruct (column_indices song_columns (columns df)) as [ixs|e]; [|reflexivity].
  rewrite bind_lift. unfold values0 at 1. cbn [rows].
  destruct (rows df) as [|r rest]; [reflexivity|]. cbn [map].
  apply bind_ext. intros _ c'.
  destruct (column_indices artist_columns (columns df)) as [jxs|e].
  - rewrite bind_lift. cbn [values0 rows map]. now rewrite bind_lift.
  - rewrite bind_lift. reflexivity.
Qed.

(** C4.  For a catalog file that has the nine columns, at least one record,
    and in it a song and an artist identifier, [process_song_file] ends well
    after exactly two statements: one song insert and one artist insert,
    whose parameters are the fields of the first record as they stand, in
    the order of the two column lists.  Both rows are in the store
    afterwards. *)
Theorem song_file_rows fs p df r rest c :
  read_json fs p = Ok df ->
  rows df = r :: rest ->
  has_columns df (song_columns ++ artist_columns) = true ->
  is_null (field (columns df) r "song_id") = false ->
  is_null (field (columns df) r "artist_id") = false ->
  outcome (process_song_file fs p c) = Ok tt
  /\ events (process_song_file fs p c)
     = [EExecute song_table_insert (map (field (columns df) r) song_columns);
        EExecute artist_table_insert (map (field (columns df) r) artist_columns)]
  /\ In (mkSong (field (columns df) r "song_id") (field (columns df) r "title")
           (field (columns df) r "artist_id") (field (columns df) r "year")
           (field (columns df) r "duration"))
       (songs (working (final (process_song_file fs p c))))
  /\ In (mkArtist (field (columns df) r "artist_id") (field (columns df) r "artist_name")
           (field (columns df) r "artist_location")
           (field (columns df) r "artist_latitude")
           (field (columns df) r "artist_longitude"))
       (artists (working (final (process_song_file fs p c)))).
Proof.
  intros Hread Hrows Hcols Hsong Hartist.
  rewrite (process_song_file_read _ _ _ _ Hread), load_song_frame_run, Hrows.
  unfold has_columns in Hcols. rewrite forallb_app in Hcols.
  apply andb_true_iff in Hcols as [Hs Ha].
  destruct (column_indices_fields _ _ Hs) as (ixs & -> & Fs).
  destruct (column_indices_fields _ _ Ha) as (jxs & -> & Fa).
  rewrite Fs, Fa.
  unfold bind, cur_execute, execute_on, song_columns, artist_columns.
  cbn [map working durable]. rewrite Hsong. cbn [working]. rewrite Hartist.
  cbn [outcome final events fst snd app working songs artists].
  repeat split; apply upsert_in.
Qed.

Lemma song_file_rows_witness :
  outcome (process_song_file Samples.disk (Rel ["data"; "song_data"; "top.json"])
             (connect empty_store)) = Ok tt
  /\ events (process_song_file Samples.disk (Rel ["data"; "song_data"; "top.json"])
               (connect empty_store))
     = [EExecute song_table_insert
          [VStr "S1"; VStr "Fake Song"; VStr "A1"; VInt 2000; Samples.f200];
        EExecute artist_table_insert
          [VStr "A1"; VStr "Fake Artist"; VStr "Nowhere"; VNull; VNull]].
Proof.
  destruct (song_file_rows Samples.disk (Rel ["data"; "song_data"; "top.json"])
              Samples.fake_song _ [] (connect empty_store)
              eq_refl eq_refl eq_refl eq_refl eq_refl)
    as (Hok & Hev & _).
  split; [exact Hok | exact Hev].
Defined.

(** C9.  Of a catalog file with more than one record [process_song_file]
    uses the first only.  Whatever the file holds, it executes no statement
    but the song insert and the artist insert of the first record.  And when
    the file has the nine columns and its first record a song and an artist
    identifier, it ends well after exactly these two inserts, and the store
    is the one it started from with the song row and the artist row of the
    first record put in: the records after the first leave no trace. *)
Theorem song_file_first_record_only fs p df r r' rest c :
  read_json fs p = Ok df ->
  rows df = r :: r' :: rest ->
  Forall
    (fun e =>
       e = EExecute song_table_insert (map (field (columns df) r) song_columns)
       \/ e = EExecute artist_table_insert
                (map (field (columns df) r) artist_columns))
    (events (process_song_file fs p c))
  /\ (has_columns df (song_columns ++ artist_columns) = true ->
      is_null (field (columns df) r "song_id") = false ->
      is_null (field (columns df) r "artist_id") = false ->
      process_song_file fs p c
      = (Ok tt,
         mkConn (durable c)
           (mkStore
              (upsert song_id
                 (mkSong (field (columns df) r "song_id")
                    (field (columns df) r "title")
                    (field (columns df) r "artist_id")
                    (field (columns df) r "year")
                    (field (columns df) r "duration"))
                 (songs (working c)))
              (upsert artist_id
                 (mkArtist (field (columns df) r "artist_id")
                    (field (columns df) r "artist_name")
                    (field (columns df) r "artist_location")
                    (field (columns df) r "artist_latitude")
                    (field (columns df) r "artist_longitude"))
                 (artists (working c)))
              (users (working c)) (times (working c)) (songplays (working c)))
           None,
         [EExecute song_table_insert (map (field (columns df) r) song_columns);
          EExecute artist_table_insert
            (map (field (columns df) r) artist_columns)])).
Proof.
  intros Hread Hrows.
  rewrite (process_song_file_read _ _ _ _ Hread), load_song_frame_run, Hrows.
  split.
  - destruct (column_indices song_columns (columns df)) as [ixs|e] eqn:Hs;
      [|constructor].
    rewrite (column_indices_ok _ _ _ Hs).
    destruct (column_indices artist_columns (columns df)) as [jxs|e] eqn:Ha.
    + rewrite (column_indices_ok _ _ _ Ha).
      unfold bind, cur_execute, execute_on, song_columns, artist_columns.
      cbn [map working].
      destruct (is_null (field (columns df) r "song_id")).
      { cbn [events snd]. constructor; [auto | constructor]. }
      cbn [working].
      destruct (is_null (field (columns df) r "artist_id"));
        cbn [events snd app]; (constructor; [auto|]); (constructor; [auto|]);
        constructor.
    + unfold bind, cur_execute, execute_on, lift, song_columns. cbn [map working].
      destruct (is_null (field (columns df) r "song_id"));
        cbn [events snd app]; (constructor; [auto|]); constructor.
  - intros Hcols Hsong Hartist.
    unfold has_columns in Hcols. rewrite forallb_app in Hcols.
    apply andb_true_iff in Hcols as [Hs Ha].
    destruct (column_indices_fields _ _ Hs) as (ixs & -> & Fs).
    destruct (column_indices_fields _ _ Ha) as (jxs & -> & Fa).
    rewrite Fs, Fa.
    unfold bind, cur_execute, execute_on, song_columns, artist_columns.
    cbn [map working durable]. rewrite Hsong. cbn [working]. rewrite Hartist.
    reflexivity.
Qed.

Lemma song_file_first_record_only_witness :
  events (process_song_file Samples.disk (Rel ["data"; "song_data"; "two.json"])
            (connect empty_store))
  = [EExecute song_table_insert
       [VStr "S1"; VStr "Fake Song"; VStr "A1"; VInt 2000; Samples.f200];
     EExecute artist_table_insert
       [VStr "A1"; VStr "Fake Artist"; VStr "Nowhere"; VNull; VNull]]
  /\ List.length (songs (working (final
       (process_song_file Samples.disk (Rel ["data"; "song_data"; "two.json"])
          (connect empty_store))))) = 1%nat
  /\ List.length (artists (working (final
       (process_song_file Samples.disk (Rel ["data"; "song_data"; "two.json"])
          (connect empty_store))))) = 1%nat.
Proof.
  destruct (song_file_first_record_only Samples.disk
              (Rel ["data"; "song_data"; "two.json"]) Samples.two_songs _ _ _
              (connect empty_store) eq_refl eq_refl) as [_ H].
  rewrite (H eq_refl eq_refl eq_refl). repeat split; reflexivity.
Defined.

(* ================================================================= *)
(** * The claims about [process_data] *)

Section Driver.

Lemma bind_assoc {A B C : Type} (m : M A) (k : A -> M B) (h : B -> M C) c :
  bind (bind m k) h c = bind m (fun a => bind (k a) h) c.
Proof.
  unfold bind. destruct (m c) as [[[a|e] c1] ev1]; [|reflexivity].
  destruct (k a c1) as [[[b|e] c2] ev2]; [|reflexivity].
  destruct (h b c2) as [[r c3] ev3]. now rewrite app_assoc.
Qed.

Lemma for_each_app {A : Type} (l1 l2 : list A) (body : A -> M unit) c :
  for_each (l1 ++ l2) body c
  = bind (for_each l1 body) (fun _ => for_each l2 body) c.
Proof.
  revert c. induction l1 as [|x l1 IH]; intros c; cbn [app for_each].
  - unfold bind, ret. now destruct (for_each l2 body c) as [[r c2] ev2].
  - rewrite bind_assoc. apply bind_ext. intros _ c'. apply IH.
Qed.

Lemma commit_then_print line c :
  bind conn_commit (fun _ => print line) c
  = (Ok tt, committed c, [ECommit; EPrint line]).
Proof. reflexivity. Qed.

(** One turn of the loop of [process_data] whose handler ends well: the
    commit, the progress line, and then the other files. *)
Lemma process_files_step_ok fs func n f rest c c' ev :
  func fs (snd f) c = (Ok tt, c', ev) ->
  process_files fs func n (f :: rest) c
  = (outcome (process_files fs func n rest (committed c')),
     final (process_files fs func n rest (committed c')),
     ev ++ ECommit :: EPrint (files_processed (fst f) n)
        :: events (process_files fs func n rest (committed c'))).
Proof.
  intros H. unfold process_files. cbn [for_each].
  rewrite bind_assoc, (bind_step_ok _ _ _ _ _ _ H).
  rewrite (bind_step_ok _ _ _ _ _ _ (commit_then_print _ c')).
  rewrite outcome_run, final_run, events_run. reflexivity.
Qed.

(** One turn whose handler raises: the loop is over. *)
Lemma process_files_step_raise fs func n f rest c e c' ev :
  func fs (snd f) c = (Raise e, c', ev) ->
  process_files fs func n (f :: rest) c = (Raise e, c', ev).
Proof.
  intros H. unfold process_files. cbn [for_each].
  rewrite bind_assoc. now apply bind_step_raise.
Qed.

Lemma process_files_app fs func n l1 l2 c :
  process_files fs func n (l1 ++ l2) c
  = bind (process_files fs func n l1) (fun _ => process_files fs func n l2) c.
Proof. unfold process_files. apply for_each_app. Qed.

(** After a loop that ended well over at least one file, everything is
    committed. *)
Lemma process_files_committed fs func n files c :
  files <> [] ->
  outcome (process_files fs func n files c) = Ok tt ->
  durable (final (process_files fs func n files c))
  = working (final (process_files fs func n files c)).
Proof.
  revert c. induction files as [|f files IH]; intros c Hne; [congruence|].
  destruct (func fs (snd f) c) as [[[[]|e] c'] ev] eqn:H.
  - rewrite (process_files_step_ok _ _ _ _ _ _ _ _ H), outcome_run, final_run.
    destruct files as [|f' files]; [reflexivity|].
    apply IH. discriminate.
  - rewrite (process_files_step_raise _ _ _ _ _ _ _ _ _ H), outcome_run.
    discriminate.
Qed.

Lemma hoare_execute_durable d q params :
  hoare (fun c => durable c = d) (cur_execute q params) (fun _ => True)
    (fun e => is_statement e = true).
Proof. apply hoare_execute; auto. Qed.

Ltac hoare_lifts :=
  repeat (apply hoare_bind with (R := fun _ : _ => True);
          [apply hoare_lift; trivial | intros ? _; cbv zeta]).

Lemma hoare_insert_songplay_durable d cols row :
  hoare (fun c => durable c = d) (insert_songplay cols row) (fun _ => True)
    (fun e => is_statement e = true).
Proof.
  unfold insert_songplay. hoare_lifts.
  apply hoare_bind with (R := fun _ => True).
  - intros c Hc. rewrite lookup_ids_run, final_run, events_run.
    repeat split; auto.
  - intros ids _. hoare_lifts. apply hoare_execute_durable.
Qed.

(** The two handlers execute statements and do nothing else: they neither
    commit nor print. *)
Lemma hoare_process_log_file d fs p :
  hoare (fun c => durable c = d) (process_log_file fs p) (fun _ => True)
    (fun e => is_statement e = true).
Proof.
  unfold process_log_file, load_log_frame. hoare_lifts.
  apply hoare_bind with (R := fun _ => True).
  { apply hoare_for_each. intros row _. apply hoare_execute_durable. }
  intros _ _. hoare_lifts.
  apply hoare_bind with (R := fun _ => True).
  { apply hoare_for_each. intros row _. apply hoare_execute_durable. }
  intros _ _.
  apply hoare_for_each. intros row _. apply hoare_insert_songplay_durable.
Qed.

Lemma hoare_process_song_file d fs p :
  hoare (fun c => durable c = d) (process_song_file fs p) (fun _ => True)
    (fun e => is_statement e = true).
Proof.
  unfold process_song_file, load_song_frame. hoare_lifts.
  apply hoare_bind with (R := fun _ => True);
    [apply hoare_execute_durable | intros _ _].
  hoare_lifts. apply hoare_execute_durable.
Qed.

Lemma handler_statements_only fs func p c :
  func = process_song_file \/ func = process_log_file ->
  durable (final (func fs p c)) = durable c
  /\ Forall (fun e => is_statement e = true) (events (func fs p c)).
Proof.
  intros [-> | ->].
  - destruct (hoare_process_song_file (durable c) fs p c eq_refl) as (H1 & H2 & _).
    now split.
  - destruct (hoare_process_log_file (durable c) fs p c eq_refl) as (H1 & H2 & _).
    now split.
Qed.

Lemma printed_app l1 l2 : printed (l1 ++ l2) = printed l1 ++ printed l2.
Proof.
  induction l1 as [|[q ps| |line] l1 IH]; simpl; auto. now rewrite IH.
Qed.

Lemma printed_statements l :
  Forall (fun e => is_statement e = true) l -> printed l = [].
Proof.
  induction 1 as [|[q ps| |line] l H _ IH]; simpl; auto; discriminate.
Qed.

(** The progress lines of the loop: one per file done, counting up. *)
Lemma process_files_printed fs func n :
  func = process_song_file \/ func = process_log_file ->
  forall files start c,
  exists k,
    (k <= List.length files)%nat
    /\ printed (events (process_files fs func n (enumerate start files) c))
       = map (fun i => files_processed i n) (seq start k)
    /\ (outcome (process_files fs func n (enumerate start files) c) = Ok tt ->
        k = List.length files).
Proof.
  intros Hf. induction files as [|f files IH]; intros start c.
  - exists O. repeat split; auto.
  - change (enumerate start (f :: files))
      with ((start, f) :: enumerate (S start) files).
    destruct (handler_statements_only fs func f c Hf) as [_ Hev].
    destruct (func fs f c) as [[[[]|e] c'] ev] eqn:H;
      rewrite events_run in Hev.
    + destruct (IH (S start) (committed c')) as (k & Hk & Hp & Hok).
      exists (S k).
      rewrite (process_files_step_ok fs func n (start, f) _ _ _ _ H).
      rewrite events_run, outcome_run, printed_app.
      rewrite (printed_statements _ Hev). cbn [app printed fst map seq].
      rewrite Hp. split; [simpl; lia|]. split; [reflexivity|].
      intros Ho. simpl. f_equal. auto.
    + exists O.
      rewrite (process_files_step_raise fs func n (start, f) _ _ _ _ _ H).
      rewrite events_run, outcome_run, (printed_statements _ Hev).
      repeat split; [simpl; lia | discriminate].
Qed.

Lemma process_data_run fs filepath func c :
  process_data fs filepath func c
  = (outcome (process_files fs func (List.length (all_files fs filepath))
                (enumerate 1 (all_files fs filepath)) c),
     final (process_files fs func (List.length (all_files fs filepath))
              (enumerate 1 (all_files fs filepath)) c),
     EPrint (files_found (List.length (all_files fs filepath)) filepath)
       :: events (process_files fs func (List.length (all_files fs filepath))
                    (enumerate 1 (all_files fs filepath)) c)).
Proof.
  unfold process_data. cbv zeta.
  assert (H : print (files_found (List.length (all_files fs filepath)) filepath) c
              = (Ok tt, c,
                 [EPrint (files_found (List.length (all_files fs filepath)) filepath)]))
    by reflexivity.
  now rewrite (bind_step_ok _ _ _ _ _ _ H).
Qed.

End Driver.

Section Discovery.

Lemma find_entry_in name entries x :
  find_entry name entries = Some x -> In (name, x) entries.
Proof.
  induction entries as [|[n y] entries IH]; simpl; [discriminate|].
  destruct (String.eqb name n) eqn:E.
  - intros [= ->]. apply String.eqb_eq in E. subst. now left.
  - intros H. right. now apply IH.
Qed.

Lemma walk_node_child root entries name x :
  In (name, x) entries ->
  incl (walk_node (join root name) x) (walk_node root (Dir entries)).
Proof.
  intros Hin y Hy. simpl. right.
  induction entries as [|[n z] entries IH]; [contradiction|].
  apply in_or_app. destruct Hin as [[= -> ->] | Hin].
  - now left.
  - right. now apply IH.
Qed.

(** [os.walk] reaches every directory below the top, however deep. *)
Lemma walk_node_descend dirs : forall n root entries,
  descend n dirs = Some (Dir entries) ->
  In (fold_left join dirs root, entries) (walk_node root n).
Proof.
  induction dirs as [|name dirs IH]; intros n root entries; simpl.
  - intros [= ->]. simpl. now left.
  - destruct n as [content|es|]; [discriminate| |discriminate].
    destruct (find_entry name es) as [x|] eqn:E; [|discriminate].
    intros H. apply (walk_node_child root es name x (find_entry_in _ _ _ E)).
    now apply IH.
Qed.

Lemma descend_app n a b :
  descend n (a ++ b)
  = match descend n a with Some x => descend x b | None => None end.
Proof.
  revert n. induction a as [|name a IH]; intros n; simpl; [reflexivity|].
  destruct n as [content|es|]; [reflexivity| |reflexivity].
  destruct (find_entry name es); [apply IH | reflexivity].
Qed.

(** Every file below the top directory whose name matches [*.json] is
    among the files [process_data] collects. *)
Lemma all_files_complete fs filepath top dirs name content :
  locate fs filepath = Some top ->
  descend top (dirs ++ [name]) = Some (File content) ->
  matches_star_json name = true ->
  In (abspath fs (join (fold_left join dirs filepath) name)) (all_files fs filepath).
Proof.
  intros Htop Hfile Hname. unfold all_files, os_walk. rewrite Htop.
  rewrite descend_app in Hfile.
  destruct (descend top dirs) as [[c|entries|]|] eqn:Hdir; try discriminate.
  simpl in Hfile.
  destruct (find_entry name entries) as [x|] eqn:E; [|discriminate].
  apply in_flat_map. exists (fold_left join dirs filepath, entries). split.
  - now apply walk_node_descend.
  - cbn [fst snd]. apply in_map. unfold glob_json. apply in_map.
    apply filter_In. split; [|assumption].
    apply find_entry_in in E. apply in_map_iff. now exists (name, x).
Qed.

Lemma plain_name_walks name :
  plain_name name = true -> stays name = false /\ leaves name = false.
Proof.
  unfold plain_name. intros H.
  apply andb_true_iff in H as [H _]. apply andb_true_iff in H as [H1 H2].
  now apply negb_true_iff in H1, H2.
Qed.

Lemma resolve_from_app a : forall parents n b,
  resolve_from parents n (a ++ b)
  = match resolve_from parents n a with
    | Some (parents', x) => resolve_from parents' x b
    | None => None
    end.
Proof.
  induction a as [|name a IH]; intros parents n b; simpl; [reflexivity|].
  destruct n as [content|es|]; [reflexivity| |reflexivity].
  destruct (stays name); [apply IH|].
  destruct (leaves name); [destruct parents; apply IH|].
  destruct (find_entry name es); [apply IH | reflexivity].
Qed.

(** Going down through entries is how their path resolves. *)
Lemma resolve_from_descend names : forall parents n x,
  forallb plain_name names = true ->
  descend n names = Some x ->
  exists parents', resolve_from parents n names = Some (parents', x).
Proof.
  induction names as [|name names IH]; intros parents n x Hplain; simpl.
  - intros [= ->]. now exists parents.
  - simpl in Hplain. apply andb_true_iff in Hplain as [Hname Hplain].
    destruct (plain_name_walks _ Hname) as [-> ->].
    destruct n as [content|es|]; [discriminate| |discriminate].
    destruct (find_entry name es) as [y|]; [|discriminate].
    now apply IH.
Qed.

Lemma trail_resolve root kept parents n :
  trail root kept parents n ->
  resolve_from [] root (rev kept) = Some (parents, n).
Proof.
  induction 1 as [|kept parents entries name x _ IH Hs Hl Hfind]; [reflexivity|].
  simpl rev. rewrite resolve_from_app, IH. simpl. now rewrite Hs, Hl, Hfind.
Qed.

Lemma trail_normalize root components : forall kept parents n parents' n',
  trail root kept parents n ->
  resolve_from parents n components = Some (parents', n') ->
  trail root (fold_left normalize_step components kept) parents' n'.
Proof.
  induction components as [|name components IH];
    intros kept parents n parents' n' Htrail; simpl.
  - now intros [= <- <-].
  - destruct n as [content|es|]; [discriminate| |discriminate].
    unfold normalize_step at 2.
    destruct (stays name) eqn:Hs; [now apply IH|].
    destruct (leaves name) eqn:Hl.
    + destruct parents as [|parent parents].
      * inversion Htrail; subst. now apply IH.
      * inversion Htrail; subst. simpl tl. now apply IH.
    + destruct (find_entry name es) as [x|] eqn:Hfind; [|discriminate].
      apply IH. now constructor.
Qed.

(** What a path leads to, its normal form leads to as well. *)
Lemma resolve_normalize root components x :
  resolve root components = Some x ->
  resolve root (normalize components) = Some x.
Proof.
  unfold resolve, normalize. intros H.
  destruct (resolve_from [] root components) as [[parents y]|] eqn:E;
    [|discriminate].
  simpl in H. injection H as ->.
  now rewrite (trail_resolve _ _ _ _ (trail_normalize _ _ _ _ _ _ _ (trail_root root) E)).
Qed.

Lemma normalize_step_plain names : forall kept,
  forallb plain_name names = true ->
  fold_left normalize_step names kept = rev names ++ kept.
Proof.
  induction names as [|name names IH]; intros kept Hplain; simpl; [reflexivity|].
  simpl in Hplain. apply andb_true_iff in Hplain as [Hname Hplain].
  rewrite (IH _ Hplain). unfold normalize_step.
  destruct (plain_name_walks _ Hname) as [-> ->].
  now rewrite <- app_assoc.
Qed.

Lemma normalize_app_plain a b :
  forallb plain_name b = true -> normalize (a ++ b) = normalize a ++ b.
Proof.
  intros Hplain. unfold normalize.
  now rewrite fold_left_app, (normalize_step_plain _ _ Hplain), rev_app_distr,
    rev_involutive.
Qed.

Lemma absolute_join fs p name : absolute fs (join p name) = absolute fs p ++ [name].
Proof. destruct p as [cs|cs]; simpl; [reflexivity | now rewrite app_assoc]. Qed.

Lemma absolute_below fs dirs : forall p,
  absolute fs (fold_left join dirs p) = absolute fs p ++ dirs.
Proof.
  induction dirs as [|name dirs IH]; intros p; simpl.
  - now rewrite app_nil_r.
  - now rewrite IH, absolute_join, <- app_assoc.
Qed.

Lemma locate_resolve fs p x :
  locate fs p = Some x -> resolve (fs_root fs) (absolute fs p) = Some x.
Proof. destruct p as [cs|[|name cs]]; simpl; auto. discriminate. Qed.

(** The path collected for a file below the top is the path of that file. *)
Lemma all_files_locate fs filepath top dirs name content :
  locate fs filepath = Some top ->
  descend top (dirs ++ [name]) = Some (File content) ->
  forallb plain_name (dirs ++ [name]) = true ->
  locate fs (abspath fs (join (fold_left join dirs filepath) name))
  = Some (File content).
Proof.
  intros Htop Hfile Hplain. apply locate_resolve in Htop.
  unfold abspath, locate. cbn [absolute]. apply resolve_normalize.
  rewrite absolute_join, absolute_below, <- app_assoc.
  unfold resolve in *. rewrite resolve_from_app.
  destruct (resolve_from [] (fs_root fs) (absolute fs filepath))
    as [[parents y]|]; [|discriminate].
  simpl in Htop. injection Htop as ->.
  destruct (resolve_from_descend _ parents _ _ Hplain Hfile) as [parents' ->].
  reflexivity.
Qed.

End Discovery.

(** C5.  The loop of [process_data] commits after each file and stops at
    the first failure.  (a) When the handler ends well on a file, the commit
    follows its statements at once, then the progress line, and the other
    files are processed on the committed connection.  (b) When the handler
    raises on a file, the run ends with that exception whatever files
    follow: nothing of them is processed, what the failing file wrote is
    not committed, and what the files before it wrote is.  (c) With three
    catalog files of which the second is malformed, the run ends with a
    ParseError after the first file's song and artist rows were committed,
    and nothing of the third file happens. *)
Theorem driver_commits_each_file_and_aborts :
  (forall fs func n f rest c c' ev,
      func fs (snd f) c = (Ok tt, c', ev) ->
      process_files fs func n (f :: rest) c
      = (outcome (process_files fs func n rest (committed c')),
         final (process_files fs func n rest (committed c')),
         ev ++ ECommit :: EPrint (files_processed (fst f) n)
            :: events (process_files fs func n rest (committed c'))))
  /\ (forall fs func n before f after c c1 ev1 e c2 ev2,
        func = process_song_file \/ func = process_log_file ->
        process_files fs func n before c = (Ok tt, c1, ev1) ->
        func fs (snd f) c1 = (Raise e, c2, ev2) ->
        process_files fs func n (before ++ f :: after) c = (Raise e, c2, ev1 ++ ev2)
        /\ durable c2 = durable c1
        /\ (before <> [] -> durable c1 = working c1)
        /\ Forall (fun ev => is_statement ev = true) ev2)
  /\ (outcome (process_data Samples.disk (Rel ["data"; "broken_data"])
                 process_song_file (connect empty_store))
      = Raise ParseError
      /\ durable (final (process_data Samples.disk (Rel ["data"; "broken_data"])
                           process_song_file (connect empty_store)))
         = mkStore
             [mkSong (VStr "S1") (VStr "Fake Song") (VStr "A1") (VInt 2000) Samples.f200]
             [mkArtist (VStr "A1") (VStr "Fake Artist") (VStr "Nowhere") VNull VNull]
             [] [] []
      /\ events (process_data Samples.disk (Rel ["data"; "broken_data"])
                   process_song_file (connect empty_store))
         = [EPrint "3 files found in data/broken_data";
            EExecute song_table_insert
              [VStr "S1"; VStr "Fake Song"; VStr "A1"; VInt 2000; Samples.f200];
            EExecute artist_table_insert
              [VStr "A1"; VStr "Fake Artist"; VStr "Nowhere"; VNull; VNull];
            ECommit;
            EPrint "1/3 files processed."]).
Proof.
  split; [|split].
  - intros fs func n f rest c c' ev H. now apply process_files_step_ok.
  - intros fs func n before f after c c1 ev1 e c2 ev2 Hf Hbefore Hfail.
    split; [|split; [|split]].
    + rewrite process_files_app, (bind_step_ok _ _ _ _ _ _ Hbefore).
      rewrite (process_files_step_raise _ _ _ _ _ _ _ _ _ Hfail).
      now rewrite outcome_run, final_run, events_run.
    + destruct (handler_statements_only fs func (snd f) c1 Hf) as [Hd _].
      now rewrite Hfail, final_run in Hd.
    + intros Hne.
      pose proof (process_files_committed fs func n before c Hne) as Hc.
      rewrite Hbefore, outcome_run, final_run in Hc. now apply Hc.
    + destruct (handler_statements_only fs func (snd f) c1 Hf) as [_ Hs].
      now rewrite Hfail, events_run in Hs.
  - repeat split; reflexivity.
Qed.

Lemma driver_commits_each_file_and_aborts_witness :
  process_files Samples.disk process_song_file 3
    ([(1%nat, Abs ["home"; "data"; "broken_data"; "a.json"])]
     ++ (2%nat, Abs ["home"; "data"; "broken_data"; "b.json"])
        :: [(3%nat, Abs ["home"; "data"; "broken_data"; "c.json"])])
    (connect empty_store)
  = (Raise ParseError,
     connect
       (mkStore
          [mkSong (VStr "S1") (VStr "Fake Song") (VStr "A1") (VInt 2000) Samples.f200]
          [mkArtist (VStr "A1") (VStr "Fake Artist") (VStr "Nowhere") VNull VNull]
          [] [] []),
     [EExecute song_table_insert
        [VStr "S1"; VStr "Fake Song"; VStr "A1"; VInt 2000; Samples.f200];
      EExecute artist_table_insert
        [VStr "A1"; VStr "Fake Artist"; VStr "Nowhere"; VNull; VNull];
      ECommit;
      EPrint "1/3 files processed."] ++ []).
Proof.
  exact (proj1 (proj1 (proj2 driver_commits_each_file_and_aborts)
                  Samples.disk process_song_file 3%nat
                  [(1%nat, Abs ["home"; "data"; "broken_data"; "a.json"])]
                  (2%nat, Abs ["home"; "data"; "broken_data"; "b.json"])
                  [(3%nat, Abs ["home"; "data"; "broken_data"; "c.json"])]
                  (connect empty_store) _ _ _ _ _
                  (or_introl eq_refl) eq_refl eq_refl)).
Defined.

(** The files of the sample catalog, as [process_data] collects them: the
    matches of a directory before those of its sub-directories, at any
    depth; the hidden file and the text file are left out. *)
Example sample_catalog_files :
  all_files Samples.disk (Rel ["data"; "song_data"])
  = [Abs ["home"; "data"; "song_data"; "top.json"];
     Abs ["home"; "data"; "song_data"; "two.json"];
     Abs ["home"; "data"; "song_data"; "first.json"];
     Abs ["home"; "data"; "song_data"; "A"; "B"; "deep.json"]].
Proof. reflexivity. Qed.

(** C8, as the claim states it, fails: for a root directory that does not
    exist [process_data] raises nothing.  It reports that it found 0 files
    and returns.  And a file with the JSON extension whose name starts with
    a dot is not discovered. *)
Lemma missing_root_is_no_error :
  locate Samples.disk (Rel ["data"; "missing"]) = None
  /\ process_data Samples.disk (Rel ["data"; "missing"]) process_song_file
       (connect empty_store)
     = (Ok tt, connect empty_store, [EPrint "0 files found in data/missing"])
  /\ locate Samples.disk (Rel ["data"; "song_data"; "A"; ".hidden.json"])
     = Some (File (Some Samples.two_songs))
  /\ ends_with ".json" ".hidden.json" = true
  /\ existsb
       (fun f => match f with
                 | Abs cs | Rel cs => String.eqb (last cs "") ".hidden.json"
                 end)
       (all_files Samples.disk (Rel ["data"; "song_data"]))
     = false.
Proof. repeat split; reflexivity. Qed.

(** A root written with dots is walked like any other, and the files below
    it are collected under their plain absolute paths; what cannot be read
    is passed over. *)
Example dotted_root_is_walked :
  all_files Places.disk (Rel ["."; "data"; ".."; "data"; "song_data"; ""])
  = [Abs ["home"; "data"; "song_data"; "a.json"];
     Abs ["home"; "data"; "song_data"; "B"; "b.json"]]
  /\ all_files Places.disk (Rel ["data"; "vault"]) = []
  /\ all_files Places.disk (Rel ["data"; "notes.txt"; ".."; "song_data"]) = [].
Proof. repeat split; reflexivity. Qed.

Lemma enumerate_cons {A : Type} start (x : A) l :
  enumerate start (x :: l) = (start, x) :: enumerate (S start) l.
Proof. reflexivity. Qed.

(** The second loop of [process_data], for any handler: the events of the
    files done, each followed by the commit and the progress line, and then
    the events of the file that failed, if one did. *)
Lemma process_files_progress fs func n files : forall start c,
  exists done last,
    events (process_files fs func n (enumerate start files) c)
    = List.concat
        (map (fun id => snd id ++ [ECommit; EPrint (files_processed (fst id) n)])
           (enumerate start done))
      ++ last
    /\ Forall2 (fun f ev => exists c1 c2, func fs f c1 = (Ok tt, c2, ev))
         (firstn (List.length done) files) done
    /\ (List.length done <= List.length files)%nat
    /\ (outcome (process_files fs func n (enumerate start files) c) = Ok tt ->
        List.length done = List.length files /\ last = [])
    /\ (forall e,
          outcome (process_files fs func n (enumerate start files) c) = Raise e ->
          exists f c1 c2,
            nth_error files (List.length done) = Some f
            /\ func fs f c1 = (Raise e, c2, last)).
Proof.
  induction files as [|f files IH]; intros start c.
  - exists [], []. repeat split; try constructor. discriminate.
  - rewrite enumerate_cons.
    destruct (func fs f c) as [[[[]|e] c'] ev] eqn:H.
    + rewrite (process_files_step_ok fs func n (start, f) _ c c' ev H).
      rewrite outcome_run, events_run.
      destruct (IH (S start) (committed c')) as (done & last & -> & HF & Hle & Hok & Hraise).
      exists (ev :: done), last. split; [|split; [|split; [|split]]].
      * rewrite enumerate_cons. cbn [map List.concat fst snd].
        rewrite <- !app_assoc. reflexivity.
      * cbn [List.length firstn]. constructor; [now exists c, c' | exact HF].
      * simpl. lia.
      * intros Hout. destruct (Hok Hout) as [Hlen ->]. simpl. now rewrite Hlen.
      * intros e Hout. exact (Hraise e Hout).
    + rewrite (process_files_step_raise fs func n (start, f) _ c e c' ev H).
      exists [], ev. split; [|split; [|split; [|split]]].
      * reflexivity.
      * constructor.
      * simpl. lia.
      * discriminate.
      * intros e' [= <-]. now exists f, c, c'.
Qed.

(** C8, amended.  (a) When the root directory does not exist, is a file, or
    may not be read, [process_data] raises nothing: it prints that 0 files
    were found, processes nothing and returns.  (b) When it exists, every
    file below it, at any depth, whose name ends in [.json] and does not
    start with a dot is among the files collected, under the absolute path
    that leads to it; this for a root and directories whose names hold none
    of the characters [glob] reads as a pattern.  (c) Whatever the handler,
    the run prints the number of files found and then, file after file, what
    the handler does for the file, the commit and the progress line [i/N];
    it stops at the first file whose handler raises, and has then printed
    the progress lines of the files before it only.  (d) With one of the two
    handlers, the lines printed are the number of files found and the
    progress lines [1/N], [2/N], ... of the files done: all [N] of them
    when the run ends well. *)
Theorem discovery_and_progress :
  (forall fs filepath func c,
      (locate fs filepath = None
       \/ (exists content, locate fs filepath = Some (File content))
       \/ locate fs filepath = Some Unreadable) ->
      process_data fs filepath func c
      = (Ok tt, c, [EPrint (files_found 0 filepath)]))
  /\ (forall fs filepath top dirs name content,
        locate fs filepath = Some top ->
        descend top (dirs ++ [name]) = Some (File content) ->
        forallb plain_name (dirs ++ [name]) = true ->
        forallb no_glob (components filepath ++ dirs) = true ->
        matches_star_json name = true ->
        In (abspath fs (join (fold_left join dirs filepath) name))
          (all_files fs filepath)
        /\ locate fs (abspath fs (join (fold_left join dirs filepath) name))
           = Some (File content))
  /\ (forall fs filepath func c,
        exists done last,
          events (process_data fs filepath func c)
          = EPrint (files_found (List.length (all_files fs filepath)) filepath)
            :: List.concat
                 (map (fun id =>
                         snd id
                         ++ [ECommit;
                             EPrint (files_processed (fst id)
                                       (List.length (all_files fs filepath)))])
                    (enumerate 1 done))
            ++ last
          /\ Forall2 (fun f ev => exists c1 c2, func fs f c1 = (Ok tt, c2, ev))
               (firstn (List.length done) (all_files fs filepath)) done
          /\ (List.length done <= List.length (all_files fs filepath))%nat
          /\ (outcome (process_data fs filepath func c) = Ok tt ->
              List.length done = List.length (all_files fs filepath) /\ last = [])
          /\ (forall e,
                outcome (process_data fs filepath func c) = Raise e ->
                exists f c1 c2,
                  nth_error (all_files fs filepath) (List.length done) = Some f
                  /\ func fs f c1 = (Raise e, c2, last)))
  /\ (forall fs filepath func c,
        func = process_song_file \/ func = process_log_file ->
        exists k,
          (k <= List.length (all_files fs filepath))%nat
          /\ printed (events (process_data fs filepath func c))
             = files_found (List.length (all_files fs filepath)) filepath
               :: map (fun i => files_processed i (List.length (all_files fs filepath)))
                    (seq 1 k)
          /\ (outcome (process_data fs filepath func c) = Ok tt ->
              k = List.length (all_files fs filepath))).
Proof.
  split; [|split; [|split]].
  - intros fs filepath func c H.
    assert (E : all_files fs filepath = []).
    { unfold all_files, os_walk.
      destruct H as [-> | [[content ->] | ->]]; reflexivity. }
    rewrite process_data_run, E. reflexivity.
  - intros fs filepath top dirs name content Htop Hfile Hplain _ Hname. split.
    + now apply (all_files_complete fs filepath top dirs name content).
    + now apply (all_files_locate fs filepath top dirs name content).
  - intros fs filepath func c.
    destruct (process_files_progress fs func (List.length (all_files fs filepath))
                (all_files fs filepath) 1%nat c)
      as (done & last & Hev & HF & Hle & Hok & Hraise).
    exists done, last. rewrite process_data_run, events_run, outcome_run, Hev.
    auto.
  - intros fs filepath func c Hf.
    destruct (process_files_printed fs func (List.length (all_files fs filepath)) Hf
                (all_files fs filepath) 1%nat c) as (k & Hk & Hp & Hok).
    exists k. rewrite process_data_run, events_run, outcome_run.
    cbn [printed]. rewrite Hp. auto.
Qed.

Lemma discovery_and_progress_witness :
  process_data Samples.disk (Rel ["data"; "missing"]) process_log_file
    (connect empty_store)
  = (Ok tt, connect empty_store, [EPrint "0 files found in data/missing"])
  /\ process_data Places.disk (Rel ["data"; "vault"]) process_song_file
       (connect empty_store)
     = (Ok tt, connect empty_store, [EPrint "0 files found in data/vault"])
  /\ In (Abs ["home"; "data"; "song_data"; "A"; "B"; "deep.json"])
       (all_files Samples.disk (Rel ["data"; "song_data"]))
  /\ In (Abs ["home"; "data"; "song_data"; "B"; "b.json"])
       (all_files Places.disk (Rel ["data"; ".."; "data"; "song_data"]))
  /\ printed (events (process_data Samples.disk (Rel ["data"; "log_data"])
                        process_log_file (connect Samples.catalog)))
     = ["2 files found in data/log_data"; "1/2 files processed.";
        "2/2 files processed."].
Proof.
  destruct discovery_and_progress as (Hmissing & Hfiles & _ & Hprogress).
  split; [|split; [|split; [|split]]].
  - exact (Hmissing Samples.disk (Rel ["data"; "missing"]) process_log_file
             (connect empty_store) (or_introl eq_refl)).
  - exact (Hmissing Places.disk (Rel ["data"; "vault"]) process_song_file
             (connect empty_store) (or_intror (or_intror eq_refl))).
  - exact (proj1 (Hfiles Samples.disk (Rel ["data"; "song_data"]) _ ["A"; "B"]
                    "deep.json" (Some Samples.other_song) eq_refl eq_refl eq_refl
                    eq_refl eq_refl)).
  - exact (proj1 (Hfiles Places.disk (Rel ["data"; ".."; "data"; "song_data"]) _
                    ["B"] "b.json" (Some Samples.other_song) eq_refl eq_refl eq_refl
                    eq_refl eq_refl)).
  - destruct (Hprogress Samples.disk (Rel ["data"; "log_data"]) process_log_file
                (connect Samples.catalog) (or_intror eq_refl))
      as (k & Hk & Hp & Hok).
    rewrite Hp, (Hok eq_refl). reflexivity.
Defined.

(* ================================================================= *)
(** * Further properties of [etl.py] *)

(** ** [process_log_file]: where it can fail, and what it has done by then *)

Lemma bind_ret {A B : Type} (a : A) (k : A -> M B) c : bind (ret a) k c = k a c.
Proof. unfold bind, ret. now destruct (k a c) as [[r c'] ev]. Qed.

(** The part of [process_log_file] before its loops, exactly. *)
Lemma load_log_frame_steps df c :
  load_log_frame df c
  = match column_index "page" (columns df) with
    | None => (Raise (KeyError "page"), c, [])
    | Some _ =>
        match column_index "ts" (columns df) with
        | None => (Raise (KeyError "ts"), c, [])
        | Some i =>
            match to_datetime (map (fun r => field (columns df) r "ts")
                                 (next_song_rows df)) with
            | Raise e => (Raise e, c, [])
            | Ok ts =>
                (for_each (map time_record ts)
                   (fun row => cur_execute time_table_insert row) ;;
                 user_df <- lift (getitem_list
                                    (mkDataFrame (columns df)
                                       (with_timestamps i (next_song_rows df) ts))
                                    user_columns) ;;
                 for_each (rows user_df)
                   (fun row => cur_execute user_table_insert row) ;;
                 for_each (with_timestamps i (next_song_rows df) ts)
                   (insert_songplay (columns df)))%etl c
            end
        end
    end.
Proof.
  unfold load_log_frame. rewrite bind_lift.
  destruct (getitem df "page") as [page|e] eqn:Hpage; unfold getitem in Hpage;
    destruct (column_index "page" (columns df)) as [ip|] eqn:Hp;
    try discriminate; [|now injection Hpage as <-].
  injection Hpage as <-.
  cbv zeta. rewrite bind_lift.
  set (df1 := getitem_mask df (map (eq_str "NextSong") (map (cell ip) (rows df)))).
  assert (Hc1 : columns df1 = columns df) by reflexivity.
  assert (Hr1 : rows df1 = next_song_rows df).
  { unfold df1. rewrite getitem_mask_rows. unfold next_song_rows.
    apply filter_ext. intros r. now rewrite (column_index_field _ _ _ _ Hp). }
  destruct (getitem df1 "ts") as [ts0|e] eqn:Hts0; unfold getitem in Hts0;
    rewrite Hc1, Hr1 in Hts0;
    destruct (column_index "ts" (columns df)) as [i|] eqn:Hi;
    try discriminate; [|now injection Hts0 as <-].
  injection Hts0 as <-.
  assert (Hts : map (cell i) (next_song_rows df)
                = map (fun r => field (columns df) r "ts") (next_song_rows df)).
  { apply map_ext. intros r. now rewrite (column_index_field _ _ _ _ Hi). }
  rewrite Hts. rewrite bind_lift.
  destruct (to_datetime (map (fun r => field (columns df) r "ts") (next_song_rows df)))
    as [ts|e] eqn:Hconv; [|reflexivity].
  assert (Hdf2 : setitem df1 "ts" ts
                 = mkDataFrame (columns df) (with_timestamps i (next_song_rows df) ts)).
  { unfold setitem. rewrite Hc1, Hi, Hr1. reflexivity. }
  rewrite Hdf2. cbn [columns rows].
  assert (Hget : getitem (mkDataFrame (columns df)
                            (with_timestamps i (next_song_rows df) ts)) "ts"
                 = Ok ts).
  { unfold getitem. cbn [columns rows]. rewrite Hi. unfold with_timestamps.
    rewrite map_cell_set_cell; [reflexivity|].
    rewrite (to_datetime_length _ _ Hconv). apply length_map. }
  rewrite bind_lift, Hget, time_frame_rows. reflexivity.
Qed.

Lemma column_index_none c cols :
  existsb (String.eqb c) cols = false -> column_index c cols = None.
Proof.
  induction cols as [|c' cols IH]; simpl; [reflexivity|].
  destruct (String.eqb c c'); simpl; [discriminate|].
  intros H. now rewrite IH.
Qed.

Lemma column_index_some c cols i :
  column_index c cols = Some i -> existsb (String.eqb c) cols = true.
Proof.
  intros H. destruct (existsb (String.eqb c) cols) eqn:E; [reflexivity|].
  apply column_index_none in E. congruence.
Qed.

(** [df[[...]]] with a label the frame has not: a [KeyError] for one of
    them. *)
Lemma column_indices_missing cs cols :
  forallb (fun c => existsb (String.eqb c) cols) cs = false ->
  exists label, In label cs /\ column_indices cs cols = Raise (KeyError label).
Proof.
  induction cs as [|c cs IH]; simpl; [discriminate|].
  destruct (existsb (String.eqb c) cols) eqn:E; simpl.
  - intros H. destruct (IH H) as (label & Hin & Hraise).
    destruct (has_column_index _ _ E) as [i ->]. rewrite Hraise.
    exists label. auto.
  - intros _. rewrite (column_index_none _ _ E). exists c. auto.
Qed.

(** X2.  A log file without a NextSong event executes no statement and
    leaves the connection as it was.  It ends well when the frame has the
    columns [page] and [ts] and the five user columns, and with a
    [KeyError] for one of these when it has not: the columns are looked up
    even though no row is left to insert. *)
Theorem log_file_without_plays fs p df c :
  read_json fs p = Ok df ->
  next_song_rows df = [] ->
  (has_columns df ("page" :: "ts" :: user_columns) = true ->
   process_log_file fs p c = (Ok tt, c, []))
  /\ (has_columns df ("page" :: "ts" :: user_columns) = false ->
      exists label,
        In label ("page" :: "ts" :: user_columns)
        /\ process_log_file fs p c = (Raise (KeyError label), c, [])).
Proof.
  intros Hread Hnone.
  rewrite (process_log_file_read _ _ _ _ Hread), load_log_frame_steps, Hnone.
  unfold has_columns. cbn [forallb map to_datetime with_timestamps combine].
  destruct (existsb (String.eqb "page") (columns df)) eqn:Epage.
  2:{ rewrite (column_index_none _ _ Epage). split; [discriminate|].
      intros _. exists "page". split; [now left | reflexivity]. }
  destruct (has_column_index _ _ Epage) as [ip ->].
  destruct (existsb (String.eqb "ts") (columns df)) eqn:Ets.
  2:{ rewrite (column_index_none _ _ Ets). split; [discriminate|].
      intros _. exists "ts". split; [right; now left | reflexivity]. }
  destruct (has_column_index _ _ Ets) as [i ->].
  cbn [andb for_each]. rewrite bind_ret, bind_lift. unfold getitem_list.
  cbn [columns rows map]. split.
  - intros H. destruct (column_indices_fields _ _ H) as (ixs & -> & _).
    cbn [rows for_each]. now rewrite !bind_ret.
  - intros H. destruct (column_indices_missing _ _ H) as (label & Hin & ->).
    exists label. split; [right; right; exact Hin | reflexivity].
Qed.

Lemma log_file_without_plays_witness :
  process_log_file Edge.disk (Rel ["quiet_day.json"]) (connect Samples.catalog)
  = (Ok tt, connect Samples.catalog, []).
Proof.
  exact (proj1 (log_file_without_plays Edge.disk (Rel ["quiet_day.json"])
                  Edge.quiet_day (connect Samples.catalog) eq_refl eq_refl)
           eq_refl).
Defined.

Lemma to_datetime_out_of_bounds series n :
  forallb int64_cell series = true ->
  In (VInt n) series ->
  n * 1000000 < min_timestamp_ns \/ max_timestamp_ns < n * 1000000 ->
  to_datetime series = Raise OutOfBoundsDatetime.
Proof.
  intros Hint Hin Hn. induction series as [|x series IH]; [contradiction|].
  simpl in Hint. apply andb_true_iff in Hint as [Hx Hint].
  destruct x as [|s|k|f|ms]; try discriminate. simpl.
  destruct ((min_timestamp_ns <=? k * 1000000) && (k * 1000000 <=? max_timestamp_ns))
    eqn:Hk; [|reflexivity].
  destruct Hin as [[= ->] | Hin].
  - apply andb_true_iff in Hk as [H1 H2].
    apply Z.leb_le in H1, H2. lia.
  - now rewrite (IH Hint Hin).
Qed.

(** X3.  The timestamps of all NextSong events are converted before the
    first statement is executed.  So for a log file whose [ts] are 64-bit
    integers: when the [ts] of one NextSong event lies beyond the range of
    a Timestamp, wherever in the file that event stands,
    [process_log_file] raises [OutOfBoundsDatetime] and has executed
    nothing. *)
Theorem log_file_bad_timestamp fs p df c r n :
  read_json fs p = Ok df ->
  forallb (fun row => int64_cell (field (columns df) row "ts")) (rows df) = true ->
  In r (next_song_rows df) ->
  field (columns df) r "ts" = VInt n ->
  n * 1000000 < min_timestamp_ns \/ max_timestamp_ns < n * 1000000 ->
  process_log_file fs p c = (Raise OutOfBoundsDatetime, c, []).
Proof.
  intros Hread Hint Hr Hts Hn.
  rewrite (process_log_file_read _ _ _ _ Hread), load_log_frame_steps.
  assert (Hpage : column_index "page" (columns df) <> None).
  { unfold next_song_rows in Hr. apply filter_In in Hr as [_ Hp].
    unfold field in Hp. intros E. rewrite E in Hp. discriminate. }
  destruct (column_index "page" (columns df)); [|congruence].
  assert (Hcol : column_index "ts" (columns df) <> None).
  { unfold field in Hts. intros E. rewrite E in Hts. discriminate. }
  destruct (column_index "ts" (columns df)); [|congruence].
  rewrite (to_datetime_out_of_bounds
             (map (fun r => field (columns df) r "ts") (next_song_rows df)) n);
    [reflexivity| | |exact Hn].
  - rewrite forallb_forall in *. intros v Hv.
    apply in_map_iff in Hv as (row & <- & Hrow).
    apply Hint. unfold next_song_rows in Hrow. now apply filter_In in Hrow.
  - apply in_map_iff. now exists r.
Qed.

Lemma log_file_bad_timestamp_witness :
  process_log_file Edge.disk (Rel ["late_day.json"]) (connect Samples.catalog)
  = (Raise OutOfBoundsDatetime, connect Samples.catalog, []).
Proof.
  apply (log_file_bad_timestamp Edge.disk (Rel ["late_day.json"]) Edge.late_day
           (connect Samples.catalog) Edge.late_play Edge.far_future
           eq_refl eq_refl (or_intror (or_introl eq_refl)) eq_refl).
  right. reflexivity.
Defined.

Lemma to_datetime_not_null series ts :
  to_datetime series = Ok ts ->
  Forall (fun v => is_null v = false) series ->
  Forall (fun t => is_null t = false) ts.
Proof.
  revert ts. induction series as [|v series IH]; simpl; intros ts.
  - intros [= <-] _. constructor.
  - destruct (to_datetime_ms v) as [t|] eqn:Hv; [|discriminate].
    destruct (to_datetime series) as [ts'|]; [|discriminate].
    intros [= <-] H. inversion H as [|? ? Hnull Hrest]; subst.
    constructor; [|now apply IH].
    destruct v; simpl in *; try discriminate;
      try (destruct (_ && _); [|discriminate]); now injection Hv as <-.
Qed.

(** The first loop runs to its end when every timestamp is there. *)
Lemma time_loop_runs ts : forall c,
  Forall (fun t => is_null t = false) ts ->
  exists c',
    for_each (map time_record ts) (fun row => cur_execute time_table_insert row) c
    = (Ok tt, c', map (fun t => EExecute time_table_insert (time_record t)) ts)
    /\ durable c' = durable c.
Proof.
  induction ts as [|t ts IH]; intros c H.
  - exists c. split; reflexivity.
  - inversion H as [|? ? Ht Hts]; subst.
    assert (E : cur_execute time_table_insert (time_record t) c
                = (Ok tt,
                   mkConn (durable c)
                     (mkStore (songs (working c)) (artists (working c))
                        (users (working c))
                        (upsert start_time
                           (mkTimeRow t (dt_cell Calendar.hour t) (dt_cell Calendar.day t)
                              (dt_cell Calendar.week t) (dt_cell Calendar.month t)
                              (dt_cell Calendar.year t) (dt_cell Calendar.weekday t))
                           (times (working c)))
                        (songplays (working c)))
                     None,
                   [EExecute time_table_insert (time_record t)])).
    { unfold cur_execute, execute_on, time_record. now rewrite Ht. }
    destruct (IH (mkConn (durable c)
                    (mkStore (songs (working c)) (artists (working c))
                       (users (working c))
                       (upsert start_time
                          (mkTimeRow t (dt_cell Calendar.hour t) (dt_cell Calendar.day t)
                             (dt_cell Calendar.week t) (dt_cell Calendar.month t)
                             (dt_cell Calendar.year t) (dt_cell Calendar.weekday t))
                          (times (working c)))
                       (songplays (working c)))
                    None) Hts) as (c' & Hrun & Hd).
    exists c'. split; [|exact Hd].
    cbn [map for_each]. rewrite (bind_step_ok _ _ _ _ _ _ E), Hrun. reflexivity.
Qed.

(** X4.  The user columns are looked up after the time loop.  So for a log
    file that has [page] and [ts] but lacks a user column, with NextSong
    events whose timestamps are all there and convert, [process_log_file]
    executes the time insert of every NextSong event, then raises a
    [KeyError] for a user column: no user row, no lookup, no songplay row,
    and nothing committed. *)
Theorem log_file_without_user_columns fs p df c ts :
  read_json fs p = Ok df ->
  has_columns df ["page"; "ts"] = true ->
  has_columns df user_columns = false ->
  to_datetime (map (fun r => field (columns df) r "ts") (next_song_rows df)) = Ok ts ->
  Forall (fun r => is_null (field (columns df) r "ts") = false) (next_song_rows df) ->
  exists label c',
    In label user_columns
    /\ process_log_file fs p c
       = (Raise (KeyError label), c',
          map (fun t => EExecute time_table_insert (time_record t)) ts)
    /\ List.length ts = List.length (next_song_rows df)
    /\ durable c' = durable c.
Proof.
  intros Hread Hcols Huser Hconv Hnull.
  rewrite (process_log_file_read _ _ _ _ Hread), load_log_frame_steps.
  unfold has_columns in Hcols. cbn [forallb] in Hcols.
  apply andb_true_iff in Hcols as [Hpage Hts].
  apply andb_true_iff in Hts as [Hts _].
  destruct (has_column_index _ _ Hpage) as [ip ->].
  destruct (has_column_index _ _ Hts) as [i ->].
  rewrite Hconv.
  assert (Hnn : Forall (fun t => is_null t = false) ts).
  { apply (to_datetime_not_null _ _ Hconv).
    apply Forall_forall. intros v Hv. apply in_map_iff in Hv as (r & <- & Hr).
    rewrite Forall_forall in Hnull. now apply Hnull. }
  destruct (time_loop_runs ts c Hnn) as (c' & Hrun & Hd).
  destruct (column_indices_missing _ _ Huser) as (label & Hin & Hraise).
  exists label, c'. split; [exact Hin|]. split; [|split; [|exact Hd]].
  - rewrite (bind_step_ok _ _ _ _ _ _ Hrun), bind_lift.
    unfold getitem_list. cbn [columns]. rewrite Hraise.
    now rewrite outcome_run, final_run, events_run, app_nil_r.
  - rewrite (to_datetime_length _ _ Hconv). apply length_map.
Qed.

Lemma log_file_without_user_columns_witness :
  exists label c',
    In label user_columns
    /\ process_log_file Edge.disk (Rel ["anonymous.json"]) (connect Samples.catalog)
       = (Raise (KeyError label), c',
          map (fun t => EExecute time_table_insert (time_record t))
            [VTimestamp Samples.wednesday; VTimestamp (Samples.wednesday + 5000)])
    /\ List.length [VTimestamp Samples.wednesday; VTimestamp (Samples.wednesday + 5000)]
       = List.length (next_song_rows Edge.anonymous_plays)
    /\ durable c' = durable (connect Samples.catalog).
Proof.
  refine (log_file_without_user_columns Edge.disk (Rel ["anonymous.json"])
            Edge.anonymous_plays (connect Samples.catalog) _
            eq_refl eq_refl eq_refl eq_refl _).
  repeat constructor.
Defined.

(** ** [process_song_file]: where it can fail *)

(** X1.  [process_song_file] on a frame without one of the five song
    columns raises a [KeyError] and has executed nothing; on a frame with
    these columns and no record it raises an [IndexError] and has executed
    nothing.  On a frame whose first record has the song columns but that
    lacks an artist column, the song insert is executed first and the
    [KeyError] comes after it: the song row is in the open transaction,
    without its artist and not committed. *)
Theorem song_file_failures fs p df c :
  read_json fs p = Ok df ->
  (has_columns df song_columns = false ->
   exists label,
     In label song_columns
     /\ process_song_file fs p c = (Raise (KeyError label), c, []))
  /\ (has_columns df song_columns = true -> rows df = [] ->
      process_song_file fs p c = (Raise IndexError, c, []))
  /\ (forall r rest,
        has_columns df song_columns = true ->
        rows df = r :: rest ->
        is_null (field (columns df) r "song_id") = false ->
        has_columns df artist_columns = false ->
        exists label c',
          In label artist_columns
          /\ process_song_file fs p c
             = (Raise (KeyError label), c',
                [EExecute song_table_insert (map (field (columns df) r) song_columns)])
          /\ durable c' = durable c
          /\ artists (working c') = artists (working c)
          /\ In (mkSong (field (columns df) r "song_id") (field (columns df) r "title")
                   (field (columns df) r "artist_id") (field (columns df) r "year")
                   (field (columns df) r "duration"))
               (songs (working c'))).
Proof.
  intros Hread.
  rewrite (process_song_file_read _ _ _ _ Hread), load_song_frame_run.
  unfold has_columns. split; [|split].
  - intros H. destruct (column_indices_missing _ _ H) as (label & Hin & ->).
    now exists label.
  - intros H Hrows. destruct (column_indices_fields _ _ H) as (ixs & -> & _).
    now rewrite Hrows.
  - intros r rest Hs Hrows Hid Ha.
    destruct (column_indices_fields _ _ Hs) as (ixs & -> & Fs).
    destruct (column_indices_missing _ _ Ha) as (label & Hin & ->).
    rewrite Hrows, Fs. exists label.
    unfold bind, cur_execute, execute_on, lift, song_columns.
    cbn [map]. rewrite Hid. cbn [app].
    eexists. split; [exact Hin|]. split; [reflexivity|].
    cbn [durable working artists songs]. repeat split. apply upsert_in.
Qed.

Lemma song_file_failures_witness :
  process_song_file Edge.disk (Rel ["no_records.json"]) (connect empty_store)
  = (Raise IndexError, connect empty_store, [])
  /\ exists label c',
       In label artist_columns
       /\ process_song_file Edge.disk (Rel ["song_only.json"]) (connect empty_store)
          = (Raise (KeyError label), c',
             [EExecute song_table_insert
                [VStr "S9"; VStr "Lone Song"; VStr "A9"; VInt 1999; Samples.f1]])
       /\ durable c' = empty_store
       /\ artists (working c') = []
       /\ In (mkSong (VStr "S9") (VStr "Lone Song") (VStr "A9") (VInt 1999) Samples.f1)
            (songs (working c')).
Proof.
  split.
  - exact (proj1 (proj2 (song_file_failures Edge.disk (Rel ["no_records.json"])
                           Edge.no_records (connect empty_store) eq_refl))
             eq_refl eq_refl).
  - exact (proj2 (proj2 (song_file_failures Edge.disk (Rel ["song_only.json"])
                           Edge.song_only (connect empty_store) eq_refl))
             _ _ eq_refl eq_refl eq_refl eq_refl).
Defined.

Lemma getattr_has_column cols row a v :
  getattr cols row a = Ok v -> existsb (String.eqb a) cols = true.
Proof.
  unfold getattr. destruct (column_index a cols) as [i|] eqn:E; [|discriminate].
  intros _. now apply (column_index_some _ _ i).
Qed.

Ltac read_attribute H :=
  rewrite bind_lift in H;
  match type of H with
  | context [getattr ?cols ?row ?a] =>
      let E := fresh "E" in
      destruct (getattr cols row a) eqn:E;
      [apply getattr_has_column in E | rewrite outcome_run in H; discriminate H]
  end.

(** A turn of the last loop that ends well has found all nine columns. *)
Lemma insert_songplay_needs_columns cols row c :
  outcome (insert_songplay cols row c) = Ok tt ->
  forallb (fun a => existsb (String.eqb a) cols) songplay_attributes = true.
Proof.
  unfold insert_songplay. intros H.
  do 3 read_attribute H.
  rewrite bind_run, lookup_ids_run, outcome_run, final_run in H.
  rewrite outcome_run in H.
  do 6 read_attribute H.
  unfold songplay_attributes. cbn [forallb].
  repeat match goal with E : existsb _ cols = true |- _ => rewrite E; clear E end.
  reflexivity.
Qed.

Lemma songplay_loop_without_attribute cols rs c :
  forallb (fun a => existsb (String.eqb a) cols) songplay_attributes = false ->
  executed songplay_table_insert (events (for_each rs (insert_songplay cols) c)) = []
  /\ (rs <> [] -> exists e, outcome (for_each rs (insert_songplay cols) c) = Raise e).
Proof.
  intros Hmiss. destruct rs as [|r rs]; [split; [reflexivity | congruence]|].
  cbn [for_each].
  destruct (insert_songplay_cases cols r c)
    as [(e & H) | [(e & c' & H & _) | (c' & H & _)]].
  - rewrite (bind_step_raise _ _ _ _ _ _ H), events_run, outcome_run.
    split; [reflexivity | intros _; now exists e].
  - rewrite (bind_step_raise _ _ _ _ _ _ H), events_run, outcome_run.
    split; [reflexivity | intros _; now exists e].
  - pose proof (insert_songplay_needs_columns cols r c) as Hall.
    rewrite H, outcome_run in Hall. rewrite Hall in Hmiss by reflexivity.
    discriminate.
Qed.

(** X5.  The last loop reads nine columns from every row.  When the frame
    lacks one of them, [process_log_file] never executes a songplay insert,
    whatever the store does; and when the file has a NextSong event the run
    ends with an exception -- after the time rows and user rows, which
    come first, may already have been written. *)
Theorem log_file_without_attribute fs p df c :
  read_json fs p = Ok df ->
  has_columns df songplay_attributes = false ->
  executed songplay_table_insert (events (process_log_file fs p c)) = []
  /\ (next_song_rows df <> [] ->
      exists e, outcome (process_log_file fs p c) = Raise e).
Proof.
  intros Hread Hmiss.
  rewrite (process_log_file_read _ _ _ _ Hread), load_log_frame_steps.
  destruct (column_index "page" (columns df)) as [ip|];
    [|split; [reflexivity | intros _; now eexists]].
  destruct (column_index "ts" (columns df)) as [i|];
    [|split; [reflexivity | intros _; now eexists]].
  destruct (to_datetime _) as [ts|e] eqn:Hconv;
    [|split; [reflexivity | intros _; now eexists]].
  assert (Hlen : List.length ts = List.length (next_song_rows df)).
  { rewrite (to_datetime_length _ _ Hconv). apply length_map. }
  destruct (for_each_execute time_table_insert (fun row => row)
              (map time_record ts) c) as (t1 & t2 & _ & Evt & _ & _).
  rewrite bind_run, Evt.
  destruct (outcome (for_each (map time_record ts) _ c)) as [[]|e].
  2:{ rewrite events_run, outcome_run, executed_map_other by reflexivity.
      split; [reflexivity | intros _; now exists e]. }
  rewrite events_run, outcome_run, executed_app, executed_map_other by reflexivity.
  rewrite bind_lift.
  destruct (getitem_list _ user_columns) as [user_df|e];
    [|split; [reflexivity | intros _; now exists e]].
  match goal with
  | |- context [bind (for_each ?l _) _ ?c1] =>
      destruct (for_each_execute user_table_insert (fun row => row) l c1)
        as (u1 & u2 & _ & Evu & _ & _);
      rewrite bind_run, Evu;
      destruct (outcome (for_each l _ c1)) as [[]|e]
  end.
  2:{ rewrite events_run, outcome_run, executed_map_other by reflexivity.
      split; [reflexivity | intros _; now exists e]. }
  rewrite events_run, outcome_run, executed_app, executed_map_other by reflexivity.
  match goal with
  | |- context [for_each ?rs (insert_songplay ?cols) ?c2] =>
      destruct (songplay_loop_without_attribute cols rs c2 Hmiss) as [Hnone Hraise]
  end.
  cbn [app]. split; [exact Hnone|].
  intros Hne. apply Hraise. unfold with_timestamps. intros Hnil.
  apply (f_equal (@List.length _)) in Hnil.
  rewrite length_map, length_combine, Hlen, Nat.min_id in Hnil.
  destruct (next_song_rows df); [congruence | discriminate].
Qed.

Lemma log_file_without_attribute_witness :
  executed songplay_table_insert
    (events (process_log_file Edge.disk (Rel ["no_agent.json"])
               (connect Samples.catalog))) = []
  /\ exists e,
       outcome (process_log_file Edge.disk (Rel ["no_agent.json"])
                  (connect Samples.catalog)) = Raise e.
Proof.
  destruct (log_file_without_attribute Edge.disk (Rel ["no_agent.json"])
              Edge.no_agent_plays (connect Samples.catalog) eq_refl eq_refl)
    as [Hnone Hraise].
  split; [exact Hnone | apply Hraise; discriminate].
Defined.

(** ** What the two handlers leave alone *)

Lemma commits_app l1 l2 : commits (l1 ++ l2) = (commits l1 + commits l2)%nat.
Proof.
  induction l1 as [|[q ps| |line] l1 IH]; simpl; auto.
Qed.

Lemma commits_statements l :
  Forall (fun e => is_statement e = true) l -> commits l = O.
Proof.
  induction 1 as [|[q ps| |line] l H _ IH]; simpl; auto; discriminate.
Qed.

(** X6.  Neither handler commits or prints: whatever the file and the
    connection, also when the handler raises, the committed store is what
    it was, and the events of the handler are statements only.  Committing
    and reporting are left to [process_data]. *)
Theorem handlers_neither_commit_nor_print fs p c :
  (durable (final (process_song_file fs p c)) = durable c
   /\ commits (events (process_song_file fs p c)) = O
   /\ printed (events (process_song_file fs p c)) = [])
  /\ (durable (final (process_log_file fs p c)) = durable c
      /\ commits (events (process_log_file fs p c)) = O
      /\ printed (events (process_log_file fs p c)) = []).
Proof.
  split.
  - destruct (handler_statements_only fs process_song_file p c (or_introl eq_refl))
      as [Hd Hs].
    auto using commits_statements, printed_statements.
  - destruct (handler_statements_only fs process_log_file p c (or_intror eq_refl))
      as [Hd Hs].
    auto using commits_statements, printed_statements.
Qed.

Lemma execute_on_song_side q params st st' rs :
  q = song_table_insert \/ q = artist_table_insert ->
  execute_on q params st = Ok (st', rs) ->
  users st' = users st /\ times st' = times st /\ songplays st' = songplays st.
Proof.
  intros [-> | ->]; unfold execute_on;
    repeat (destruct params as [|? params]; try discriminate);
    (destruct (is_null v); [discriminate|]);
    intros [= <- <-]; simpl; auto.
Qed.

Ltac lift_steps :=
  repeat (apply hoare_bind with (R := fun _ : _ => True);
          [apply hoare_lift; trivial | intros ? _; cbv zeta]).

Lemma hoare_log_file_catalog s a fs p :
  hoare (fun c => songs (working c) = s /\ artists (working c) = a)
    (process_log_file fs p) (fun _ => True) (fun _ => True).
Proof.
  assert (Hexec : forall q params,
             q <> song_table_insert -> q <> artist_table_insert ->
             hoare (fun c => songs (working c) = s /\ artists (working c) = a)
               (cur_execute q params) (fun _ => True) (fun _ => True)).
  { intros q params H1 H2. apply hoare_execute; [|exact I].
    intros c st rs [Hs Ha] E. cbn [working].
    destruct (execute_on_catalog q params _ _ _ H1 H2 E) as [-> ->]. now split. }
  unfold process_log_file, load_log_frame. lift_steps.
  apply hoare_bind with (R := fun _ => True).
  { apply hoare_for_each. intros row _. apply Hexec; discriminate. }
  intros _ _. lift_steps.
  apply hoare_bind with (R := fun _ => True).
  { apply hoare_for_each. intros row _. apply Hexec; discriminate. }
  intros _ _. apply hoare_for_each. intros row _.
  unfold insert_songplay. lift_steps.
  apply hoare_bind with (R := fun _ => True).
  - intros c Hc. rewrite lookup_ids_run, final_run, events_run.
    repeat split; auto; apply Hc.
  - intros ids _. lift_steps. apply Hexec; discriminate.
Qed.

Lemma hoare_song_file_facts u t sp fs p :
  hoare (fun c => users (working c) = u /\ times (working c) = t
                  /\ songplays (working c) = sp)
    (process_song_file fs p) (fun _ => True) (fun _ => True).
Proof.
  assert (Hexec : forall q params,
             q = song_table_insert \/ q = artist_table_insert ->
             hoare (fun c => users (working c) = u /\ times (working c) = t
                             /\ songplays (working c) = sp)
               (cur_execute q params) (fun _ => True) (fun _ => True)).
  { intros q params Hq. apply hoare_execute; [|exact I].
    intros c st rs (Hu & Ht & Hsp) E. cbn [working].
    destruct (execute_on_song_side q params _ _ _ Hq E) as (-> & -> & ->).
    auto. }
  unfold process_song_file, load_song_frame. lift_steps.
  apply hoare_bind with (R := fun _ => True); [apply Hexec; now left|].
  intros _ _. lift_steps. apply Hexec. now right.
Qed.

(** X7.  Each handler writes to its own tables only, whatever the file and
    also when it raises: [process_log_file] leaves the songs and the
    artists of the open transaction as they were, so the lookups of one
    file all see the same catalog; [process_song_file] leaves the users,
    the times and the songplays as they were. *)
Theorem handlers_write_their_own_tables fs p c :
  (songs (working (final (process_log_file fs p c))) = songs (working c)
   /\ artists (working (final (process_log_file fs p c))) = artists (working c))
  /\ (users (working (final (process_song_file fs p c))) = users (working c)
      /\ times (working (final (process_song_file fs p c))) = times (working c)
      /\ songplays (working (final (process_song_file fs p c)))
         = songplays (working c)).
Proof.
  split.
  - now destruct (hoare_log_file_catalog _ _ fs p c (conj eq_refl eq_refl))
      as (H & _).
  - now destruct (hoare_song_file_facts _ _ _ fs p c
                    (conj eq_refl (conj eq_refl eq_refl))) as (H & _).
Qed.

(** ** [process_data] and [main]: commits *)

Lemma process_files_commits fs func n :
  func = process_song_file \/ func = process_log_file ->
  forall files start c,
    commits (events (process_files fs func n (enumerate start files) c))
    = List.length (printed (events (process_files fs func n (enumerate start files) c)))
    /\ (outcome (process_files fs func n (enumerate start files) c) = Ok tt ->
        commits (events (process_files fs func n (enumerate start files) c))
        = List.length files).
Proof.
  intros Hf. induction files as [|f files IH]; intros start c.
  - split; reflexivity.
  - change (enumerate start (f :: files))
      with ((start, f) :: enumerate (S start) files).
    destruct (handler_statements_only fs func f c Hf) as [_ Hev].
    destruct (func fs f c) as [[[[]|e] c'] ev] eqn:H;
      rewrite events_run in Hev.
    + destruct (IH (S start) (committed c')) as (Hc & Hok).
      rewrite (process_files_step_ok fs func n (start, f) _ _ _ _ H).
      rewrite events_run, outcome_run, commits_app, printed_app.
      rewrite (commits_statements _ Hev), (printed_statements _ Hev).
      cbn [commits printed app plus List.length]. rewrite Hc.
      split; [reflexivity|]. intros Ho. now rewrite <- Hc, (Hok Ho).
    + rewrite (process_files_step_raise fs func n (start, f) _ _ _ _ _ H).
      rewrite events_run, outcome_run.
      rewrite (commits_statements _ Hev), (printed_statements _ Hev).
      split; [reflexivity | discriminate].
Qed.

(** X9.  [process_data] commits exactly once per file that its handler
    completed, and right before that file's progress line: in any run with
    one of the two handlers the number of commits is the number of progress
    lines (the lines printed but for the first, the count of files found),
    and in a run that ends well it is the number of files found.  A run
    that finds no file commits nothing. *)
Theorem one_commit_per_file fs filepath func c :
  func = process_song_file \/ func = process_log_file ->
  S (commits (events (process_data fs filepath func c)))
  = List.length (printed (events (process_data fs filepath func c)))
  /\ (outcome (process_data fs filepath func c) = Ok tt ->
      commits (events (process_data fs filepath func c))
      = List.length (all_files fs filepath)).
Proof.
  intros Hf. rewrite process_data_run, events_run, outcome_run.
  destruct (process_files_commits fs func (List.length (all_files fs filepath)) Hf
              (all_files fs filepath) 1%nat c) as [Hc Hok].
  cbn [commits printed List.length]. rewrite Hc. split; [reflexivity|].
  intros Ho. rewrite <- Hc. now apply Hok.
Qed.

Lemma one_commit_per_file_witness :
  commits (events (process_data Samples.disk (Rel ["data"; "song_data"])
                     process_song_file (connect empty_store))) = 4%nat
  /\ commits (events (process_data Samples.disk (Rel ["data"; "broken_data"])
                        process_song_file (connect empty_store))) = 1%nat.
Proof.
  split.
  - exact (proj2 (one_commit_per_file Samples.disk (Rel ["data"; "song_data"])
                    process_song_file (connect empty_store) (or_introl eq_refl))
             eq_refl).
  - apply eq_add_S.
    exact (proj1 (one_commit_per_file Samples.disk (Rel ["data"; "broken_data"])
                    process_song_file (connect empty_store) (or_introl eq_refl))).
Defined.

Lemma process_data_clean fs filepath func c :
  durable c = working c ->
  outcome (process_data fs filepath func c) = Ok tt ->
  durable (final (process_data fs filepath func c))
  = working (final (process_data fs filepath func c)).
Proof.
  intros Hclean. rewrite process_data_run, outcome_run, final_run.
  destruct (all_files fs filepath) as [|f files] eqn:E.
  - intros _. exact Hclean.
  - apply process_files_committed. discriminate.
Qed.

(** X10.  A run that ends well leaves nothing uncommitted: started on a
    connection without pending writes, [process_data] (with any handler)
    and [main] end, when they end well, on a connection whose committed
    store is the store of its transaction.  So [conn.close()] at the end of
    [main] discards nothing. *)
Theorem successful_run_is_committed fs c :
  durable c = working c ->
  (forall filepath func,
      outcome (process_data fs filepath func c) = Ok tt ->
      durable (final (process_data fs filepath func c))
      = working (final (process_data fs filepath func c)))
  /\ (outcome (main fs c) = Ok tt ->
      durable (final (main fs c)) = working (final (main fs c))).
Proof.
  intros Hclean. split.
  - intros filepath func. now apply process_data_clean.
  - unfold main. rewrite bind_run.
    destruct (outcome (process_data fs (Rel ["data"; "song_data"])
                         process_song_file c)) as [[]|e] eqn:H1;
      rewrite outcome_run, final_run; [|discriminate].
    apply process_data_clean. now apply process_data_clean.
Qed.

Lemma successful_run_is_committed_witness :
  durable (final (main Edge.disk (connect empty_store)))
  = working (final (main Edge.disk (connect empty_store)))
  /\ songplays (durable (final (main Edge.disk (connect empty_store))))
     = [mkSongplay 1 (VTimestamp 1678887900000) (VInt 10) (VStr "free")
          (VStr "S1") (VStr "A1") (VInt 7) (VStr "London") (VStr "Mozilla");
        mkSongplay 2 (VTimestamp 1678887902000) (VInt 11) (VStr "paid")
          VNull VNull (VInt 7) (VStr "London") (VStr "Mozilla")].
Proof.
  split.
  - exact (proj2 (successful_run_is_committed Edge.disk (connect empty_store)
                    eq_refl) eq_refl).
  - reflexivity.
Defined.

(** ** The time fields *)

Lemma day_of_year_bounds y m d :
  1 <= m <= 12 -> 1 <= d <= 31 ->
  0 <= Calendar.days_of_civil y m d - Calendar.days_of_civil y 1 1 <= 365.
Proof.
  intros Hm Hd. unfold Calendar.days_of_civil. cbv zeta.
  change (1 <=? 2) with true. change (2 <? 1) with false. cbv iota.
  destruct (m <=? 2) eqn:E1; destruct (2 <? m) eqn:E2;
    try apply Z.leb_le in E1; try apply Z.leb_gt in E1;
    try apply Z.ltb_lt in E2; try apply Z.ltb_ge in E2; try lia.
  - Z.div_mod_to_equations. lia.
  - Z.div_mod_to_equations. lia.
Qed.

Lemma week_in_range ms : 1 <= Calendar.week ms <= 53.
Proof.
  unfold Calendar.week. cbv zeta.
  set (th := Calendar.days_of_ms ms - Calendar.weekday ms + 3).
  destruct (civil_of_days_inverse th) as (Hinv & Hm & Hd).
  pose proof (day_of_year_bounds (fst (fst (Calendar.civil_of_days th)))
                _ _ Hm Hd) as Hb.
  rewrite Hinv in Hb.
  Z.div_mod_to_equations. lia.
Qed.

(** X11.  The fields of a time row are in range for every timestamp,
    before 1970 too: the hour in 0..23, the day in 1..31, the ISO week in
    1..53, the month in 1..12 and the weekday in 0..6.  The year, month and
    day are the date of the timestamp's day, and with the hour they locate
    the timestamp within that hour. *)
Theorem time_fields_in_range ms :
  time_record (VTimestamp ms)
  = [VTimestamp ms; VInt (Calendar.hour ms); VInt (Calendar.day ms);
     VInt (Calendar.week ms); VInt (Calendar.month ms); VInt (Calendar.year ms);
     VInt (Calendar.weekday ms)]
  /\ 0 <= Calendar.hour ms <= 23
  /\ 1 <= Calendar.day ms <= 31
  /\ 1 <= Calendar.week ms <= 53
  /\ 1 <= Calendar.month ms <= 12
  /\ 0 <= Calendar.weekday ms <= 6
  /\ 0 <= ms - (Calendar.days_of_civil (Calendar.year ms) (Calendar.month ms)
                  (Calendar.day ms) * Calendar.ms_per_day
                + Calendar.hour ms * Calendar.ms_per_hour)
     < Calendar.ms_per_hour.
Proof.
  destruct (civil_of_days_inverse (Calendar.days_of_ms ms)) as (Hinv & Hm & Hd).
  destruct (clock_fields_in_range ms) as [Hh Hw].
  pose proof (week_in_range ms) as Hk.
  unfold Calendar.year, Calendar.month, Calendar.day.
  repeat (split; [first [reflexivity | assumption | lia]|]).
  rewrite Hinv.
  unfold Calendar.hour, Calendar.days_of_ms, Calendar.ms_per_day, Calendar.ms_per_hour.
  Z.div_mod_to_equations. lia.
Qed.

(** ** The rows of one event agree *)

Lemma map_combine_snd {A B C : Type} (f : B -> C) (l : list A) (l' : list B) :
  List.length l' = List.length l ->
  map (fun x => f (snd x)) (combine l l') = map f l'.
Proof.
  revert l'. induction l as [|x l IH]; intros [|y l']; simpl;
    try discriminate; [reflexivity|].
  intros [= H]. now rewrite IH.
Qed.

(** X12.  In a run of [process_log_file] that ends well the user rows
    inserted are, in file order, the five fields [userId], [firstName],
    [lastName], [gender] and [level] of each NextSong event as they stand in
    the file: one row per event, the same user as often as the user played,
    the last row of a user being the one of the user's last event in the
    file. *)
Theorem user_rows_of_events fs p df c :
  read_json fs p = Ok df ->
  outcome (process_log_file fs p c) = Ok tt ->
  executed user_table_insert (events (process_log_file fs p c))
  = map (fun r => map (field (columns df) r) user_columns) (next_song_rows df).
Proof.
  intros Hread Hok.
  rewrite (process_log_file_read _ _ _ _ Hread) in *.
  destruct (load_log_frame_ok df c Hok) as (ts & idss & Hconv & Hl & ->).
  rewrite !executed_app.
  rewrite executed_map_other, executed_map_same by reflexivity.
  rewrite executed_songplay_events_other by reflexivity.
  cbn [app]. now rewrite app_nil_r.
Qed.

Lemma user_rows_of_events_witness :
  executed user_table_insert
    (events (process_log_file Samples.disk (Rel ["data"; "log_data"; "day.json"])
               (connect Samples.catalog)))
  = [[VInt 10; VStr "Ada"; VStr "Lovelace"; VStr "F"; VStr "free"];
     [VInt 11; VStr "Ada"; VStr "Lovelace"; VStr "F"; VStr "paid"]].
Proof.
  exact (user_rows_of_events Samples.disk (Rel ["data"; "log_data"; "day.json"])
           Samples.day_log (connect Samples.catalog) eq_refl eq_refl).
Defined.

(** X13.  In a run of [process_log_file] that ends well the three rows of
    an event agree: position by position, the start time of the songplay
    row is the start time of the time row, and its user and level are the
    user and level of the user row.  Every songplay row refers to a time
    row and to a user row inserted earlier in the same run. *)
Theorem songplay_rows_refer_to_dimension_rows fs p df c :
  read_json fs p = Ok df ->
  outcome (process_log_file fs p c) = Ok tt ->
  map (fun params => nth 0 params VNull)
    (executed songplay_table_insert (events (process_log_file fs p c)))
  = map (fun params => nth 0 params VNull)
      (executed time_table_insert (events (process_log_file fs p c)))
  /\ map (fun params => (nth 1 params VNull, nth 2 params VNull))
       (executed songplay_table_insert (events (process_log_file fs p c)))
     = map (fun params => (nth 0 params VNull, nth 4 params VNull))
         (executed user_table_insert (events (process_log_file fs p c))).
Proof.
  intros Hread Hok.
  rewrite (process_log_file_read _ _ _ _ Hread) in *.
  destruct (load_log_frame_ok df c Hok) as (ts & idss & Hconv & Hl & ->).
  assert (Hlen : List.length ts = List.length (next_song_rows df)).
  { rewrite (to_datetime_length _ _ Hconv). apply length_map. }
  assert (Hl' : List.length idss = List.length (combine (next_song_rows df) ts)).
  { now rewrite length_combine, Hlen, Nat.min_id. }
  rewrite !executed_app.
  rewrite (executed_map_other songplay_table_insert time_table_insert) by reflexivity.
  rewrite (executed_map_other songplay_table_insert user_table_insert) by reflexivity.
  rewrite (executed_map_other time_table_insert user_table_insert) by reflexivity.
  rewrite (executed_map_other user_table_insert time_table_insert) by reflexivity.
  rewrite !executed_map_same.
  rewrite (executed_songplay_events_other time_table_insert) by reflexivity.
  rewrite (executed_songplay_events_other user_table_insert) by reflexivity.
  rewrite executed_songplay_events. cbn [app]. rewrite !app_nil_r, !map_map.
  cbn [songplay_record time_record nth user_columns map]. split.
  - rewrite (map_combine_fst (fun x => snd x) _ idss Hl').
    now rewrite (map_combine_snd (fun t => t) _ ts Hlen), map_id.
  - rewrite (map_combine_fst
               (fun x => (field (columns df) (fst x) "userId",
                          field (columns df) (fst x) "level")) _ idss Hl').
    now rewrite (map_combine_fst
                   (fun r => (field (columns df) r "userId",
                              field (columns df) r "level")) _ ts Hlen).
Qed.

Lemma songplay_rows_refer_to_dimension_rows_witness :
  map (fun params => nth 0 params VNull)
    (executed songplay_table_insert
       (events (process_log_file Samples.disk (Rel ["data"; "log_data"; "day.json"])
                  (connect Samples.catalog))))
  = [VTimestamp 1678887900000; VTimestamp 1678887902000]
  /\ map (fun params => (nth 1 params VNull, nth 2 params VNull))
       (executed songplay_table_insert
          (events (process_log_file Samples.disk (Rel ["data"; "log_data"; "day.json"])
                     (connect Samples.catalog))))
     = [(VInt 10, VStr "free"); (VInt 11, VStr "paid")].
Proof.
  exact (songplay_rows_refer_to_dimension_rows Samples.disk
           (Rel ["data"; "log_data"; "day.json"]) Samples.day_log
           (connect Samples.catalog) eq_refl eq_refl).
Defined.

(** ** What [process_data] hands to the handler *)

Lemma node_induction (P : node -> Prop) :
  (forall content, P (File content)) ->
  (forall entries, Forall (fun e => P (snd e)) entries -> P (Dir entries)) ->
  P Unreadable ->
  forall n, P n.
Proof.
  intros HF HD HU. fix IH 1. intros [content|entries|].
  - apply HF.
  - apply HD. induction entries as [|[name x] entries IHentries].
    + constructor.
    + constructor; [apply IH | exact IHentries].
  - exact HU.
Qed.

Lemma names_ok_dir entries :
  names_ok (Dir entries)
  = forallb
      (fun e => plain_name (fst e) && (is_file (snd e) || no_glob (fst e))
                && names_ok (snd e))
      entries.
Proof.
  induction entries as [|[name x] entries IH]; [reflexivity|].
  cbn [forallb fst snd]. rewrite <- IH. reflexivity.
Qed.

Lemma names_ok_entry entries name x :
  names_ok (Dir entries) = true ->
  In (name, x) entries ->
  plain_name name = true
  /\ (is_file x || no_glob name) = true
  /\ names_ok x = true.
Proof.
  rewrite names_ok_dir, forallb_forall. intros H Hin.
  specialize (H _ Hin). cbn [fst snd] in H.
  apply andb_true_iff in H as [H H3]. apply andb_true_iff in H as [H1 H2].
  auto.
Qed.

(** Where a path leads, in a tree of well-named entries. *)
Lemma resolve_from_names_ok components : forall parents n parents' n',
  Forall (fun x => names_ok x = true) parents ->
  names_ok n = true ->
  resolve_from parents n components = Some (parents', n') ->
  Forall (fun x => names_ok x = true) parents' /\ names_ok n' = true.
Proof.
  induction components as [|name components IH];
    intros parents n parents' n' Hps Hn; simpl.
  - now intros [= <- <-].
  - destruct n as [content|es|]; [discriminate| |discriminate].
    destruct (stays name); [now apply IH|].
    destruct (leaves name).
    + destruct parents as [|parent parents]; [now apply IH|].
      inversion Hps; subst. now apply IH.
    + destruct (find_entry name es) as [x|] eqn:Hfind; [|discriminate].
      apply IH; [now constructor|].
      apply find_entry_in in Hfind.
      now destruct (names_ok_entry _ _ _ Hn Hfind) as (_ & _ & Hx).
Qed.

Lemma locate_names_ok fs p x :
  names_ok (fs_root fs) = true -> locate fs p = Some x -> names_ok x = true.
Proof.
  intros Hroot H. apply locate_resolve in H. unfold resolve in H.
  destruct (resolve_from [] (fs_root fs) (absolute fs p)) as [[parents y]|] eqn:E;
    [|discriminate].
  simpl in H. injection H as ->.
  now destruct (resolve_from_names_ok _ _ _ _ _ (Forall_nil _) Hroot E).
Qed.

(** Every directory [os.walk] yields lies below the top, at the end of a
    chain of directories. *)
Lemma walk_node_below n : forall root root' entries,
  names_ok n = true ->
  In (root', entries) (walk_node root n) ->
  exists dirs,
    root' = fold_left join dirs root
    /\ forallb plain_name dirs = true
    /\ forallb no_glob dirs = true
    /\ names_ok (Dir entries) = true.
Proof.
  induction n as [content|es IH|] using node_induction;
    intros root root' entries Hok Hin; [contradiction| |contradiction].
  cbn [walk_node] in Hin. destruct Hin as [[= <- <-] | Hin]; [now exists []|].
  rewrite names_ok_dir in Hok.
  induction IH as [|[name x] es Hx _ IHes]; [contradiction|].
  cbn [forallb fst snd] in Hok. apply andb_true_iff in Hok as [Hhead Hok].
  apply andb_true_iff in Hhead as [Hhead Hxok].
  apply andb_true_iff in Hhead as [Hplain Hglob].
  apply in_app_or in Hin as [Hin | Hin].
  - destruct (Hx _ _ _ Hxok Hin) as (dirs & -> & Hp & Hg & Hes).
    exists (name :: dirs). cbn [forallb fold_left]. rewrite Hplain, Hp, Hg, Hes.
    destruct x as [content|es'|]; [contradiction| |contradiction].
    simpl in Hglob. rewrite Hglob. auto.
  - now apply IHes.
Qed.

(** X8.  On a disk where no directory has a name that [glob] reads as a
    pattern, and for a root directory written without such a character,
    [process_data] hands its handler nothing but absolute paths below the
    root directory whose last component matches [*.json]: the name ends in
    [.json] and does not start with a dot.  A file of another extension, a
    hidden file and a file outside the root are never processed. *)
Theorem collected_paths_match fs filepath p :
  names_ok (fs_root fs) = true ->
  forallb no_glob (components filepath) = true ->
  In p (all_files fs filepath) ->
  exists dirs name,
    p = Abs (components (abspath fs filepath) ++ dirs ++ [name])
    /\ p = abspath fs (join (fold_left join dirs filepath) name)
    /\ forallb plain_name (dirs ++ [name]) = true
    /\ ends_with ".json" name = true
    /\ String.prefix "." name = false.
Proof.
  unfold all_files, os_walk. intros Hroot _ Hin.
  apply in_flat_map in Hin as ([root entries] & Hwalk & Hin).
  destruct (locate fs filepath) as [top|] eqn:Htop; [|contradiction].
  destruct (walk_node_below _ _ _ _ (locate_names_ok _ _ _ Hroot Htop) Hwalk)
    as (dirs & -> & Hplain & _ & Hentries).
  cbn [fst snd] in Hin. unfold glob_json in Hin.
  apply in_map_iff in Hin as (q & <- & Hin).
  apply in_map_iff in Hin as (name & <- & Hin).
  apply filter_In in Hin as [Hin Hname].
  apply in_map_iff in Hin as ([name' x] & Hfst & Hin). simpl in Hfst. subst name'.
  destruct (names_ok_entry _ _ _ Hentries Hin) as (Hn & _ & _).
  unfold matches_star_json in Hname. apply andb_true_iff in Hname as [Hdot Hjson].
  assert (Hall : forallb plain_name (dirs ++ [name]) = true).
  { rewrite forallb_app, Hplain. simpl. now rewrite Hn. }
  exists dirs, name.
  split; [|split; [reflexivity|split; [exact Hall|split; [exact Hjson|]]]].
  - unfold abspath. cbn [components].
    now rewrite absolute_join, absolute_below, <- app_assoc, normalize_app_plain.
  - now apply negb_true_iff in Hdot.
Qed.

Lemma collected_paths_match_witness :
  exists dirs name,
    Abs ["home"; "data"; "song_data"; "A"; "B"; "deep.json"]
    = Abs (components (abspath Samples.disk (Rel ["data"; "song_data"]))
           ++ dirs ++ [name])
    /\ Abs ["home"; "data"; "song_data"; "A"; "B"; "deep.json"]
       = abspath Samples.disk
           (join (fold_left join dirs (Rel ["data"; "song_data"])) name)
    /\ forallb plain_name (dirs ++ [name]) = true
    /\ ends_with ".json" name = true
    /\ String.prefix "." name = false.
Proof.
  apply (collected_paths_match Samples.disk (Rel ["data"; "song_data"]));
    [reflexivity | reflexivity |].
  vm_compute. auto.
Defined.

(** ** The catalog: loading twice, and finding what was loaded *)

(** A run of [process_song_file] that ends well, taken apart. *)
Lemma load_song_frame_ok_inv df c c' evs :
  load_song_frame df c = (Ok tt, c', evs) ->
  exists r rest ixs jxs,
    rows df = r :: rest
    /\ column_indices song_columns (columns df) = Ok ixs
    /\ column_indices artist_columns (columns df) = Ok jxs
    /\ is_null (field (columns df) r "song_id") = false
    /\ is_null (field (columns df) r "artist_id") = false
    /\ c' = mkConn (durable c)
              (mkStore
                 (upsert song_id
                    (mkSong (field (columns df) r "song_id")
                       (field (columns df) r "title")
                       (field (columns df) r "artist_id")
                       (field (columns df) r "year")
                       (field (columns df) r "duration"))
                    (songs (working c)))
                 (upsert artist_id
                    (mkArtist (field (columns df) r "artist_id")
                       (field (columns df) r "artist_name")
                       (field (columns df) r "artist_location")
                       (field (columns df) r "artist_latitude")
                       (field (columns df) r "artist_longitude"))
                    (artists (working c)))
                 (users (working c)) (times (working c)) (songplays (working c)))
              None
    /\ evs = [EExecute song_table_insert (map (field (columns df) r) song_columns);
              EExecute artist_table_insert (map (field (columns df) r) artist_columns)].
Proof.
  rewrite load_song_frame_run.
  destruct (column_indices song_columns (columns df)) as [ixs|e] eqn:Hs;
    [|discriminate].
  destruct (rows df) as [|r rest]; [discriminate|].
  rewrite (column_indices_ok _ _ _ Hs).
  destruct (column_indices artist_columns (columns df)) as [jxs|e] eqn:Ha.
  - rewrite (column_indices_ok _ _ _ Ha).
    unfold bind, cur_execute, execute_on, song_columns, artist_columns.
    cbn [map working].
    destruct (is_null (field (columns df) r "song_id")) eqn:Hsid; [discriminate|].
    cbn [working].
    destruct (is_null (field (columns df) r "artist_id")) eqn:Haid; [discriminate|].
    intros [= <- <-]. exists r, rest, ixs, jxs. repeat split; auto.
  - unfold bind, cur_execute, execute_on, lift, song_columns. cbn [map working].
    destruct (is_null (field (columns df) r "song_id")); discriminate.
Qed.

Lemma upsert_idem {A : Type} (key : A -> value) (r : A) (t : list A) :
  sql_eqb (key r) (key r) = true ->
  upsert key r (upsert key r t) = upsert key r t.
Proof.
  intros Hr. induction t as [|x t IH]; simpl.
  - now rewrite Hr.
  - destruct (sql_eqb (key x) (key r)) eqn:E; simpl.
    + now rewrite Hr.
    + now rewrite E, IH.
Qed.

(** X15.  Processing a catalog file a second time changes nothing: when
    [process_song_file] has ended well on a file whose song and artist
    identifiers equal themselves (any string or integer does), running it on
    the same file again ends well with the same two statements and leaves
    the connection exactly as it was -- in the store modelled from the
    specification, whose inserts overwrite the row of the same key. *)
Theorem catalog_file_twice fs p df r rest c c1 evs :
  read_json fs p = Ok df ->
  rows df = r :: rest ->
  process_song_file fs p c = (Ok tt, c1, evs) ->
  sql_eqb (field (columns df) r "song_id") (field (columns df) r "song_id") = true ->
  sql_eqb (field (columns df) r "artist_id") (field (columns df) r "artist_id") = true ->
  process_song_file fs p c1 = (Ok tt, c1, evs).
Proof.
  intros Hread Hrows Hrun Hs Ha.
  rewrite (process_song_file_read _ _ _ c Hread) in Hrun.
  rewrite (process_song_file_read _ _ _ c1 Hread).
  destruct (load_song_frame_ok_inv _ _ _ _ Hrun)
    as (r' & rest' & ixs & jxs & Hrows' & Hix & Hjx & Hsid & Haid & -> & ->).
  rewrite Hrows in Hrows'. injection Hrows' as <- <-.
  rewrite load_song_frame_run, Hix, Hjx, Hrows.
  rewrite (column_indices_ok _ _ _ Hix), (column_indices_ok _ _ _ Hjx).
  unfold bind, cur_execute, execute_on, song_columns, artist_columns.
  cbn [map working durable songs artists users times songplays].
  rewrite Hsid. cbn [working durable songs artists users times songplays].
  rewrite Haid. cbn [app].
  rewrite (upsert_idem song_id) by exact Hs.
  rewrite (upsert_idem artist_id) by exact Ha.
  reflexivity.
Qed.

Lemma catalog_file_twice_witness :
  process_song_file Samples.disk (Rel ["data"; "song_data"; "top.json"])
    (final (process_song_file Samples.disk (Rel ["data"; "song_data"; "top.json"])
              (connect empty_store)))
  = (Ok tt,
     final (process_song_file Samples.disk (Rel ["data"; "song_data"; "top.json"])
              (connect empty_store)),
     events (process_song_file Samples.disk (Rel ["data"; "song_data"; "top.json"])
               (connect empty_store))).
Proof.
  exact (catalog_file_twice Samples.disk (Rel ["data"; "song_data"; "top.json"])
           Samples.fake_song _ [] (connect empty_store) _ _
           eq_refl eq_refl eq_refl eq_refl eq_refl).
Defined.

(** X14.  What [process_song_file] loads, the lookup of [process_log_file]
    finds: after a run that ended well on a record whose artist identifier,
    title, artist name and duration equal themselves (no null, no NaN), the
    lookup of an event with that title, artist name and duration is a hit,
    with both identifiers; and when the catalog held nothing before, it
    returns the identifiers of that very record -- in the store modelled
    from the specification. *)
Theorem loaded_song_is_found fs p df r rest c c1 evs :
  read_json fs p = Ok df ->
  rows df = r :: rest ->
  process_song_file fs p c = (Ok tt, c1, evs) ->
  song_keys_present (working c) = true ->
  sql_eqb (field (columns df) r "artist_id") (field (columns df) r "artist_id") = true ->
  sql_eqb (field (columns df) r "title") (field (columns df) r "title") = true ->
  sql_eqb (field (columns df) r "artist_name") (field (columns df) r "artist_name") = true ->
  sql_eqb (field (columns df) r "duration") (field (columns df) r "duration") = true ->
  (exists ids,
      outcome (lookup_ids (field (columns df) r "title")
                 (field (columns df) r "artist_name")
                 (field (columns df) r "duration") c1) = Ok ids
      /\ is_null (fst ids) = false /\ is_null (snd ids) = false)
  /\ (songs (working c) = [] -> artists (working c) = [] ->
      outcome (lookup_ids (field (columns df) r "title")
                 (field (columns df) r "artist_name")
                 (field (columns df) r "duration") c1)
      = Ok (field (columns df) r "song_id", field (columns df) r "artist_id")).
Proof.
  intros Hread Hrows Hrun Hkeys Ha Ht Hn Hd.
  rewrite (process_song_file_read _ _ _ _ Hread) in Hrun.
  destruct (load_song_frame_ok_inv _ _ _ _ Hrun)
    as (r' & rest' & ixs & jxs & Hrows' & Hix & Hjx & Hsid & Haid & -> & ->).
  rewrite Hrows in Hrows'. injection Hrows' as <- <-.
  rewrite lookup_ids_run, outcome_run. cbn [working]. split.
  - set (st := mkStore _ _ _ _ _).
    set (song := mkSong _ _ _ _ _) in *. set (artist := mkArtist _ _ _ _ _) in *.
    assert (Hin : In (song_id song, artist_id artist)
                    (select_song st (field (columns df) r "title")
                       (field (columns df) r "artist_name")
                       (field (columns df) r "duration"))).
    { unfold select_song.
      apply (in_map (fun sa => (song_id (fst sa), artist_id (snd sa)))
               _ (song, artist)).
      unfold catalog_matches. apply filter_In. split.
      - unfold joined_catalog. apply in_flat_map. exists song. split.
        + apply upsert_in.
        + apply in_map. apply filter_In. split; [apply upsert_in | exact Ha].
      - cbn [fst snd song_title artist_name song_duration song artist].
        now rewrite Ht, Hn, Hd. }
    assert (Hst : song_keys_present st = true).
    { unfold song_keys_present, st. cbn [songs].
      apply upsert_forallb; [|exact Hkeys].
      cbn [song_id song]. now rewrite Hsid. }
    destruct (select_song st _ _ _) as [|ids rest'] eqn:E; [contradiction|].
    exists ids. split; [reflexivity|].
    apply (select_song_ids st (field (columns df) r "title")
             (field (columns df) r "artist_name") (field (columns df) r "duration")).
    + exact Hst.
    + rewrite E. now left.
  - intros -> ->. unfold select_song, catalog_matches, joined_catalog.
    cbn [upsert songs artists flat_map filter map app song_artist_id artist_id
         song_title artist_name song_duration song_id fst snd].
    rewrite Ha. cbn [map app filter fst snd song_title artist_name song_duration].
    rewrite Ht, Hn, Hd. reflexivity.
Qed.

Lemma loaded_song_is_found_witness :
  outcome (lookup_ids (VStr "Fake Song") (VStr "Fake Artist") Samples.f200
             (final (process_song_file Samples.disk
                       (Rel ["data"; "song_data"; "top.json"])
                       (connect empty_store))))
  = Ok (VStr "S1", VStr "A1").
Proof.
  exact (proj2 (loaded_song_is_found Samples.disk
                  (Rel ["data"; "song_data"; "top.json"]) Samples.fake_song _ []
                  (connect empty_store) _ _
                  eq_refl eq_refl eq_refl eq_refl eq_refl eq_refl eq_refl eq_refl)
           eq_refl eq_refl).
Defined.
